(** * The spaced-repetition scheduler of [src/lib/spacedRepetition.ts]

    A shallow embedding of the scheduler and the properties of its
    store, its SM-2 transition, its priority score and its statistics.

    Modelling conventions.
    - A JavaScript [number] is carried as a rational [Q] and the arithmetic
      is exact: every number that [JSON.parse] or [Date.now()] can deliver
      is a finite binary64 value, hence a rational, but the rounding of
      binary64 operations, [NaN] and the infinities are outside the model.
      Binary64 holds no number above about 1.8e308, and [JSON.stringify]
      writes an infinite number as [null]: the properties that depend on a
      record read back from the storage carry the bound [max_days] on its
      interval, under which the next review time is a finite number, and
      the inequalities between scores are stated with a margin that
      rounding does not bridge.
    - [Math.round] is [floor (x + 1/2)], [Math.max] and [Math.min] are
      [Qmax] and [Qmin], [===] on numbers is [Qeq_bool].
    - The object that [JSON.parse] returns is used as a map from question
      ids to records and is a [gmap string RepetitionData]; ids are the
      question keys of the application, never a property name that every
      JavaScript object inherits. The functions are followed within the
      type they declare, on the documents the module itself writes; what
      the loader does with a stored text that parses to another value is
      followed apart, in [Runtime].
    - [localStorage] and the clock behind [Date.now()] form the ambient
      [World]; the functions of the module run in a state-and-exception
      monad over it, so that [try]/[catch] and the order of the reads of
      the clock are the ones of the source. *)

From Stdlib Require Import QArith Qminmax Qround Lqa.
From stdpp Require Import gmap strings list.

(** ** Numbers *)

Module Number.

Definition eqb (x y : Q) : bool := Qeq_bool x y.          (* x === y *)
Definition geb (x y : Q) : bool := Qle_bool y x.          (* x >= y *)
Definition leb (x y : Q) : bool := Qle_bool x y.          (* x <= y *)
Definition gtb (x y : Q) : bool :=                        (* x > y *)
  match (x ?= y)%Q with Gt => true | _ => false end.

End Number.

Module Math.

Definition round (x : Q) : Q := inject_Z (Qfloor (x + (1 # 2))).
Definition max (x y : Q) : Q := Qmax x y.
Definition min (x y : Q) : Q := Qmin x y.

End Math.

(** ** Data model *)

Inductive Result := correct | incorrect.

#[export] Instance Result_eq_dec : EqDecision Result.
Proof. solve_decision. Defined.

(** [lastResult : 'correct' | 'incorrect' | null] is an [option Result],
    [None] standing for [null]. *)
Record RepetitionData := mkRepetitionData {
  questionId : string;
  easeFactor : Q;
  interval : Q;
  repetitions : Q;
  nextReview : Q;
  lastResult : option Result
}.

Definition STORAGE_KEY : string := "spaced-repetition-data".

(** ** The ambient world: [localStorage] and the clock *)

(** A stored string is seen through what [JSON.parse] makes of it: either
    it is rejected with a [SyntaxError] (the empty string is such a string,
    and the only falsy one), or it is the serialisation of a map of
    records, which [JSON.parse] gives back. *)
Inductive document :=
| Malformed (text : string)
| Stringified (data : gmap string RepetitionData).

Definition truthy (d : document) : bool :=
  match d with
  | Malformed "" => false
  | _ => true
  end.

(** [Denied]: every access to [localStorage] raises (storage disabled for
    the page); [Items]: the strings stored under their keys. *)
Inductive Storage :=
| Denied
| Items (items : gmap string document).

(** The [n]-th call of [Date.now()] returns [clock n]; [reads] counts the
    calls made so far. *)
Record World := mkWorld {
  localStorage : Storage;
  clock : nat -> Q;
  reads : nat
}.

Definition with_storage (s : Storage) (w : World) : World :=
  mkWorld s (clock w) (reads w).

(** What the next [Date.now()] returns. *)
Definition now_of (w : World) : Q := clock w (reads w).

Inductive exn := SecurityError | SyntaxError.

Inductive outcome (A : Type) :=
| Return (a : A) (w : World)
| Throw (e : exn) (w : World).
Arguments Return {A} a w.
Arguments Throw {A} e w.

Definition M (A : Type) : Type := World -> outcome A.

#[export] Instance M_ret : MRet M := fun A a w => Return a w.

#[export] Instance M_bind : MBind M := fun A B f m w =>
  match m w with
  | Return a w' => f a w'
  | Throw e w' => Throw e w'
  end.

Definition throw {A} (e : exn) : M A := fun w => Throw e w.

Definition try_catch {A} (body : M A) (handler : exn -> M A) : M A := fun w =>
  match body w with
  | Return a w' => Return a w'
  | Throw e w' => handler e w'
  end.

Definition getItem (key : string) : M (option document) := fun w =>
  match localStorage w with
  | Denied => Throw SecurityError w
  | Items items => Return (items !! key) w
  end.

Definition setItem (key : string) (value : document) : M unit := fun w =>
  match localStorage w with
  | Denied => Throw SecurityError w
  | Items items => Return tt (with_storage (Items (<[key := value]> items)) w)
  end.

Definition removeItem (key : string) : M unit := fun w =>
  match localStorage w with
  | Denied => Throw SecurityError w
  | Items items => Return tt (with_storage (Items (delete key items)) w)
  end.

Definition Date_now : M Q := fun w =>
  Return (clock w (reads w)) (mkWorld (localStorage w) (clock w) (S (reads w))).

Definition JSON_parse (text : document) : M (gmap string RepetitionData) :=
  match text with
  | Malformed _ => throw SyntaxError
  | Stringified data => mret data
  end.

Definition JSON_stringify (data : gmap string RepetitionData) : document :=
  Stringified data.

(** ** The store *)

Definition getRepetitionData : M (gmap string RepetitionData) :=
  try_catch
    (stored ← getItem STORAGE_KEY;
     match stored with
     | Some text => if truthy text then JSON_parse text else mret ∅
     | None => mret ∅
     end)
    (fun _ => mret ∅).

Definition saveRepetitionData (data : gmap string RepetitionData) : M unit :=
  setItem STORAGE_KEY (JSON_stringify data).

Definition clearRepetitionForChapter (questionIds : list string) : M unit :=
  data ← getRepetitionData;
  let data := foldl (fun data id => delete id data) data questionIds in
  saveRepetitionData data.

Definition clearAllRepetitionData : M unit :=
  removeItem STORAGE_KEY.

Definition default_record (questionId : string) (now : Q) : RepetitionData :=
  {| questionId := questionId;
     easeFactor := 2.5;
     interval := 1;
     repetitions := 0;
     nextReview := now;
     lastResult := None |}.

Definition getQuestionData (questionId : string) : M RepetitionData :=
  allData ← getRepetitionData;
  match allData !! questionId with
  | Some data => mret data
  | None => now ← Date_now; mret (default_record questionId now)
  end.

(** ** The SM-2 transition *)

(** Assignments to the fields of the record held in [data]. *)
Definition set_easeFactor (v : Q) (data : RepetitionData) : RepetitionData :=
  mkRepetitionData (questionId data) v (interval data) (repetitions data)
    (nextReview data) (lastResult data).
Definition set_interval (v : Q) (data : RepetitionData) : RepetitionData :=
  mkRepetitionData (questionId data) (easeFactor data) v (repetitions data)
    (nextReview data) (lastResult data).
Definition set_repetitions (v : Q) (data : RepetitionData) : RepetitionData :=
  mkRepetitionData (questionId data) (easeFactor data) (interval data) v
    (nextReview data) (lastResult data).
Definition set_nextReview (v : Q) (data : RepetitionData) : RepetitionData :=
  mkRepetitionData (questionId data) (easeFactor data) (interval data)
    (repetitions data) v (lastResult data).
Definition set_lastResult (v : option Result) (data : RepetitionData)
  : RepetitionData :=
  mkRepetitionData (questionId data) (easeFactor data) (interval data)
    (repetitions data) (nextReview data) v.

Definition updateRepetition (questionId : string) (isCorrect : bool)
  : M RepetitionData :=
  allData ← getRepetitionData;
  data ← getQuestionData questionId;
  let data :=
    if isCorrect then
      let data :=
        if Number.eqb (repetitions data) 0 then set_interval 1 data
        else if Number.eqb (repetitions data) 1 then set_interval 6 data
        else set_interval (Math.round (interval data * easeFactor data)) data in
      let data := set_repetitions (repetitions data + 1) data in
      let data := set_easeFactor (Math.max 1.3 (easeFactor data + 0.1)) data in
      set_lastResult (Some correct) data
    else
      let data := set_repetitions 0 data in
      let data := set_interval 1 data in
      let data := set_easeFactor (Math.max 1.3 (easeFactor data - 0.3)) data in
      set_lastResult (Some incorrect) data in
  now ← Date_now;
  let data :=
    set_nextReview (now + interval data * 24 * 60 * 60 * 1000) data in
  let allData := <[questionId := data]> allData in
  _ ← saveRepetitionData allData;
  mret data.

(** ** Priority *)

Definition getPriorityScore (questionId : string) : M Q :=
  data ← getQuestionData questionId;
  match lastResult data with
  | None => mret 50%Q
  | Some incorrect => mret (100 - easeFactor data * 10)%Q
  | Some correct =>
      now ← Date_now;
      let daysOverdue := ((now - nextReview data) / (24 * 60 * 60 * 1000))%Q in
      if Number.gtb daysOverdue 0
      then mret (30 + Math.min (daysOverdue * 5) 50)%Q
      else mret (easeFactor data * 5)%Q
  end.

(** [sortByPriority] orders a copy of its argument by this score through
    [Array.prototype.sort]; the language does not fix in which order the
    engine calls the comparator, hence neither the clock values the scores
    are computed at, and the properties below speak of the scores. *)

(** ** Queries *)

(** [Array.prototype.filter] with a callback that runs in the monad. *)
Fixpoint filterM {A} (p : A -> M bool) (l : list A) : M (list A) :=
  match l with
  | [] => mret []
  | x :: l =>
      keep ← p x;
      l' ← filterM p l;
      mret (if keep : bool then x :: l' else l')
  end.

(** The callback of the two filters below, with the [now] it closes over. *)
Definition isDue (now : Q) (id : string) : M bool :=
  data ← getQuestionData id;
  match lastResult data with
  | None => mret true
  | Some incorrect => mret true
  | Some correct => mret (Number.leb (nextReview data) now)
  end.

Definition getQuestionsForReview {T} (id : T -> string) (questions : list T)
  : M (list T) :=
  now ← Date_now;
  filterM (fun q => isDue now (id q)) questions.

Definition getReviewCount (questionIds : list string) : M nat :=
  now ← Date_now;
  due ← filterM (isDue now) questionIds;
  mret (length due).

Record Stats := mkStats {
  mastered : nat;
  learning : nat;
  needsReview : nat;
  notStarted : nat
}.

Definition incr_mastered (s : Stats) : Stats :=
  mkStats (S (mastered s)) (learning s) (needsReview s) (notStarted s).
Definition incr_learning (s : Stats) : Stats :=
  mkStats (mastered s) (S (learning s)) (needsReview s) (notStarted s).
Definition incr_needsReview (s : Stats) : Stats :=
  mkStats (mastered s) (learning s) (S (needsReview s)) (notStarted s).
Definition incr_notStarted (s : Stats) : Stats :=
  mkStats (mastered s) (learning s) (needsReview s) (S (notStarted s)).

(** The body of the [forEach] of [getRepetitionStats]. *)
Definition tally (allData : gmap string RepetitionData) (now : Q)
    (stats : Stats) (id : string) : Stats :=
  match allData !! id with
  | None => incr_notStarted stats
  | Some data =>
      match lastResult data with
      | None => incr_notStarted stats
      | Some incorrect => incr_needsReview stats
      | Some correct =>
          if Number.geb (interval data) 21 && Number.geb (repetitions data) 3
          then incr_mastered stats
          else if Number.leb (nextReview data) now
          then incr_needsReview stats
          else incr_learning stats
      end
  end.

Definition getRepetitionStats (questionIds : list string) : M Stats :=
  allData ← getRepetitionData;
  let stats := mkStats 0 0 0 0 in
  now ← Date_now;
  let stats := foldl (tally allData now) stats questionIds in
  mret stats.

(** ** Vocabulary of the specification *)

(** The mapping that the persisted document holds, the empty one when
    there is none to read. *)
Definition persisted (w : World) : gmap string RepetitionData :=
  match localStorage w with
  | Denied => ∅
  | Items items =>
      match items !! STORAGE_KEY with
      | Some (Stringified data) => data
      | _ => ∅
      end
  end.

(** The degraded states of the storage: unreadable, absent, corrupt. *)
Definition degraded (w : World) : bool :=
  match localStorage w with
  | Denied => true
  | Items items =>
      match items !! STORAGE_KEY with
      | None => true
      | Some (Malformed _) => true
      | Some (Stringified _) => false
      end
  end.

(** The world after one more read of the clock. *)
Definition tick (w : World) : World :=
  mkWorld (localStorage w) (clock w) (S (reads w)).

(** The world after [data] has been saved. *)
Definition saved (data : gmap string RepetitionData) (items : gmap string document)
    (w : World) : World :=
  with_storage (Items (<[STORAGE_KEY := Stringified data]> items)) w.

(** The record that one answer makes of [r] when the clock reads [now]:
    the assignments of [updateRepetition] gathered into one record. *)
Definition next_interval (r : RepetitionData) : Q :=
  if Number.eqb (repetitions r) 0 then 1
  else if Number.eqb (repetitions r) 1 then 6
  else Math.round (interval r * easeFactor r).

Definition answered (r : RepetitionData) (isCorrect : bool) (now : Q)
  : RepetitionData :=
  if isCorrect then
    {| questionId := questionId r;
       easeFactor := Math.max 1.3 (easeFactor r + 0.1);
       interval := next_interval r;
       repetitions := repetitions r + 1;
       nextReview := now + next_interval r * 24 * 60 * 60 * 1000;
       lastResult := Some correct |}
  else
    {| questionId := questionId r;
       easeFactor := Math.max 1.3 (easeFactor r - 0.3);
       interval := 1;
       repetitions := 0;
       nextReview := now + 1 * 24 * 60 * 60 * 1000;
       lastResult := Some incorrect |}.

(** The transition rules of the specification, one field per rule. *)
Record sm2_rules (r : RepetitionData) (isCorrect : bool) (now : Q)
    (r' : RepetitionData) : Prop := mk_sm2_rules {
  rule_first_success :
    isCorrect = true -> (repetitions r == 0)%Q -> interval r' = 1%Q;
  rule_second_success :
    isCorrect = true -> (repetitions r == 1)%Q -> interval r' = 6%Q;
  rule_mature :
    isCorrect = true -> (2 <= repetitions r)%Q ->
    interval r' = Math.round (interval r * easeFactor r);
  rule_streak :
    isCorrect = true -> repetitions r' = (repetitions r + 1)%Q;
  rule_reward :
    isCorrect = true -> easeFactor r' = Math.max 1.3 (easeFactor r + 0.1);
  rule_correct :
    isCorrect = true -> lastResult r' = Some correct;
  rule_reset_streak :
    isCorrect = false -> repetitions r' = 0%Q;
  rule_reset_interval :
    isCorrect = false -> interval r' = 1%Q;
  rule_penalty :
    isCorrect = false -> easeFactor r' = Math.max 1.3 (easeFactor r - 0.3);
  rule_incorrect :
    isCorrect = false -> lastResult r' = Some incorrect;
  rule_schedule :
    (nextReview r' == now + interval r' * 86400000)%Q
}.

(** The scoring rules of the specification. *)
Record priority_rules (r : RepetitionData) (now : Q) (score : Q) : Prop :=
  mk_priority_rules {
  score_unset :
    lastResult r = None -> score = 50%Q;
  score_incorrect :
    lastResult r = Some incorrect -> score = (100 - easeFactor r * 10)%Q;
  score_overdue :
    lastResult r = Some correct ->
    (0 < (now - nextReview r) / 86400000)%Q ->
    score = (30 + Math.min ((now - nextReview r) / 86400000 * 5) 50)%Q /\
    (30 < score)%Q /\ (score <= 80)%Q;
  score_not_due :
    lastResult r = Some correct ->
    ((now - nextReview r) / 86400000 <= 0)%Q ->
    score = (easeFactor r * 5)%Q
}.

#[export] Instance Qle_decision (x y : Q) : Decision (x <= y)%Q.
Proof.
  refine (cast_if (decide (Qle_bool x y = true))); by rewrite <- Qle_bool_iff.
Defined.

(** The four buckets of the statistics and the precedence rules that
    assign a question to one of them. *)
Inductive Bucket := Mastered | Learning | NeedsReview | NotStarted.

#[export] Instance Bucket_eq_dec : EqDecision Bucket.
Proof. solve_decision. Defined.

Definition bucket_of (record : option RepetitionData) (now : Q) : Bucket :=
  match record with
  | None => NotStarted
  | Some r =>
      match lastResult r with
      | None => NotStarted
      | Some incorrect => NeedsReview
      | Some correct =>
          if decide ((21 <= interval r)%Q /\ (3 <= repetitions r)%Q) then Mastered
          else if decide ((nextReview r <= now)%Q) then NeedsReview
          else Learning
      end
  end.

Definition in_bucket (b : Bucket) (allData : gmap string RepetitionData)
    (now : Q) (ids : list string) : nat :=
  length (filter (fun id => bucket_of (allData !! id) now = b) ids).

(** The counter of a bucket, and its increment. *)
Definition count_in (b : Bucket) (stats : Stats) : nat :=
  match b with
  | Mastered => mastered stats
  | Learning => learning stats
  | NeedsReview => needsReview stats
  | NotStarted => notStarted stats
  end.

Definition incr (b : Bucket) (stats : Stats) : Stats :=
  match b with
  | Mastered => incr_mastered stats
  | Learning => incr_learning stats
  | NeedsReview => incr_needsReview stats
  | NotStarted => incr_notStarted stats
  end.

(** A run of answers to one question. *)
Fixpoint answerAll (questionId : string) (answers : list bool)
  : M (list RepetitionData) :=
  match answers with
  | [] => mret []
  | isCorrect :: answers =>
      r ← updateRepetition questionId isCorrect;
      rs ← answerAll questionId answers;
      mret (r :: rs)
  end.

(** The score of a record that the store holds, in closed form. *)
Definition score_of (r : RepetitionData) (now : Q) : Q :=
  match lastResult r with
  | None => 50
  | Some incorrect => 100 - easeFactor r * 10
  | Some correct =>
      if Number.gtb ((now - nextReview r) / 86400000) 0
      then 30 + Math.min ((now - nextReview r) / 86400000 * 5) 50
      else easeFactor r * 5
  end.

(** ** Scenarios *)

Definition epoch : Q := 1700000000000.
Definition day : Q := 86400000.

(** A clock that advances by one second from one read to the next. *)
Definition ticking (n : nat) : Q := (epoch + inject_Z (Z.of_nat n) * 1000)%Q.

(** A world whose storage holds [data] and nothing else. *)
Definition world_of (data : gmap string RepetitionData) : World :=
  mkWorld (Items {[ STORAGE_KEY := Stringified data ]}) ticking 0.

Definition empty_world : World := mkWorld (Items ∅) ticking 0.

Definition corrupt_world : World :=
  mkWorld (Items {[ STORAGE_KEY := Malformed "{oops" ]}) ticking 0.

(** One success behind it, interval 6, ease factor 2.5. *)
Definition second_success : RepetitionData :=
  mkRepetitionData "q" 2.5 6 1 epoch (Some correct).

(** A record with interval 0, as the data model allows. *)
Definition zero_interval : RepetitionData :=
  mkRepetitionData "q" 1.3 0 2 epoch (Some correct).

(** Missed at the default ease factor; ten days overdue; not yet due. *)
Definition missed : RepetitionData :=
  mkRepetitionData "missed" 2.5 1 0 (epoch + day) (Some incorrect).
Definition overdue : RepetitionData :=
  mkRepetitionData "overdue" 2.5 6 2 (epoch - 10 * day) (Some correct).
Definition resting : RepetitionData :=
  mkRepetitionData "resting" 2.5 6 2 (epoch + day) (Some correct).
Definition hard_miss : RepetitionData :=
  mkRepetitionData "hard" 1.3 1 0 (epoch + day) (Some incorrect).

Definition review_pool : gmap string RepetitionData :=
  {[ "missed" := missed; "overdue" := overdue; "resting" := resting;
     "hard" := hard_miss ]}.

(** ** The comparator of the sort, due questions and runs of answers *)

(** The arrow function that [sortByPriority] hands to [sort]: the score of
    [a] is computed first, then the score of [b]. *)
Definition sortByPriority_comparator {T} (id : T -> string) (a b : T) : M Q :=
  priorityA ← getPriorityScore (id a);
  priorityB ← getPriorityScore (id b);
  mret (priorityB - priorityA)%Q.

(** What the callback of the two filters answers for a question, read off
    the mapping the store holds. *)
Definition due_at (allData : gmap string RepetitionData) (now : Q)
    (id : string) : bool :=
  match allData !! id with
  | None => true
  | Some r =>
      match lastResult r with
      | None => true
      | Some incorrect => true
      | Some correct => Number.leb (nextReview r) now
      end
  end.

(** A natural number as a JavaScript number. *)
Definition of_nat (n : nat) : Q := inject_Z (Z.of_nat n).

(** The number of correct answers at the end of a run that starts with a
    streak of [k]. *)
Definition streak (k : nat) (answers : list bool) : nat :=
  foldl (fun n isCorrect => if isCorrect : bool then S n else 0) k answers.

(** The records of a run of answers: the transition iterated from [r], the
    [i]-th answer being given when the clock reads [clock (n + i)]. *)
Fixpoint trajectory (r : RepetitionData) (answers : list bool)
    (clock : nat -> Q) (n : nat) : list RepetitionData :=
  match answers with
  | [] => []
  | isCorrect :: answers =>
      let r' := answered r isCorrect (clock n) in
      r' :: trajectory r' answers clock (S n)
  end.

(** The shape of the records that the scheduler itself produces: ease
    factor at least 1.3, a natural number of repetitions, a whole number of
    days as interval, which is 1 up to the first success and at least 6
    from the second success on. *)
Record scheduled (r : RepetitionData) : Prop := mk_scheduled {
  scheduled_ease : (1.3 <= easeFactor r)%Q;
  scheduled_streak : exists n : nat, (repetitions r == of_nat n)%Q;
  scheduled_days : exists z : Z, (interval r == inject_Z z)%Q;
  scheduled_young : (repetitions r <= 1)%Q -> (interval r == 1)%Q;
  scheduled_mature : (2 <= repetitions r)%Q -> (6 <= interval r)%Q
}.

(** The score of a question, read off the mapping the store holds: a
    question without a record scores as one that was never answered. *)
Definition score_at (allData : gmap string RepetitionData) (now : Q)
    (id : string) : Q :=
  match allData !! id with
  | Some r => score_of r now
  | None => 50
  end.

(** A clock that stands still. *)
Definition frozen (n : nat) : Q := epoch.

Definition frozen_world (data : gmap string RepetitionData) : World :=
  mkWorld (Items {[ STORAGE_KEY := Stringified data ]}) frozen 0.

(** Every record of the mapping sits under its own [questionId]. *)
Definition keyed (allData : gmap string RepetitionData) : Prop :=
  forall id r, allData !! id = Some r -> questionId r = id.

Definition denied_world : World := mkWorld Denied ticking 0.

(** Answered correctly, and due since a day. *)
Definition a_day_late : RepetitionData :=
  mkRepetitionData "late" 2.5 6 2 (epoch - day) (Some correct).

(** The record of a question after two successes in a row from scratch. *)
Definition two_successes : RepetitionData :=
  mkRepetitionData "q" 2.7 6 2 (epoch + 6 * day) (Some correct).

(** An interval of at most [max_days] days, multiplied by the milliseconds
    of a day and added to the clock, stays below the largest binary64
    number: the next review time of such a record is finite and is saved
    as the number it is. *)
Definition max_days : Q := inject_Z (10 ^ 300).

(** ** The loader at run time *)

(** [getRepetitionData] declares a [Record<string, RepetitionData>] and
    the module only ever saves such a mapping, but [JSON.parse] has type
    [any] and its result is returned as it comes. A stored text is a
    [document] as above, or a text that parses to a JSON value that is no
    mapping of records. *)
#[warnings="-register-all"]
Inductive json :=
| JNull
| JBoolean (b : bool)
| JNumber (n : Q)
| JString (s : string)
| JArray (elements : list json)
| JObject (members : list (string * json)).

Inductive stored_text :=
| Known (d : document)
| Foreign (v : json).

Inductive RawStorage :=
| RawDenied
| RawItems (items : gmap string stored_text).

(** What the loader hands to its caller. *)
Inductive loaded :=
| Mapping (data : gmap string RepetitionData)
| Unchecked (v : json).

Inductive completion (A : Type) :=
| Returns (a : A)
| Raises (e : exn).
Arguments Returns {A} a.
Arguments Raises {A} e.

Module Runtime.

Definition getItem (key : string) (s : RawStorage)
  : completion (option stored_text) :=
  match s with
  | RawDenied => Raises SecurityError
  | RawItems items => Returns (items !! key)
  end.

(** A text that parses is not the empty string. *)
Definition truthy (text : stored_text) : bool :=
  match text with
  | Known d => truthy d
  | Foreign _ => true
  end.

Definition JSON_parse (text : stored_text) : completion loaded :=
  match text with
  | Known (Malformed _) => Raises SyntaxError
  | Known (Stringified data) => Returns (Mapping data)
  | Foreign v => Returns (Unchecked v)
  end.

Definition getRepetitionData (s : RawStorage) : completion loaded :=
  let body :=
    match getItem STORAGE_KEY s with
    | Raises e => Raises e
    | Returns stored =>
        match stored with
        | Some text =>
            if truthy text then JSON_parse text else Returns (Mapping ∅)
        | None => Returns (Mapping ∅)
        end
    end in
  match body with
  | Returns value => Returns value
  | Raises _ => Returns (Mapping ∅)
  end.

(** Unreadable, absent, corrupt. *)
Definition degraded (s : RawStorage) : bool :=
  match s with
  | RawDenied => true
  | RawItems items =>
      match items !! STORAGE_KEY with
      | None => true
      | Some (Known (Malformed _)) => true
      | Some _ => false
      end
  end.

End Runtime.

(** The storage of the model among the storages at run time. *)
Definition at_run_time (s : Storage) : RawStorage :=
  match s with
  | Denied => RawDenied
  | Items items => RawItems (Known <$> items)
  end.



(** * Properties *)

(** ** Comparisons, rounding, maximum and minimum *)

Module NumberFacts.

Lemma eqb_true x y : Number.eqb x y = true <-> (x == y)%Q.
Proof. apply Qeq_bool_iff. Qed.

Lemma eqb_false x y : Number.eqb x y = false <-> ~ (x == y)%Q.
Proof. rewrite <- not_true_iff_false, eqb_true. reflexivity. Qed.

Lemma geb_true x y : Number.geb x y = true <-> (y <= x)%Q.
Proof. apply Qle_bool_iff. Qed.

Lemma leb_true x y : Number.leb x y = true <-> (x <= y)%Q.
Proof. apply Qle_bool_iff. Qed.

Lemma leb_false x y : Number.leb x y = false <-> (y < x)%Q.
Proof.
  rewrite <- not_true_iff_false, leb_true. split.
  - apply Qnot_le_lt.
  - apply Qlt_not_le.
Qed.

Lemma gtb_true x y : Number.gtb x y = true <-> (y < x)%Q.
Proof.
  unfold Number.gtb. rewrite Qgt_alt.
  destruct (x ?= y)%Q; split; congruence.
Qed.

Lemma gtb_false x y : Number.gtb x y = false <-> (x <= y)%Q.
Proof.
  rewrite <- not_true_iff_false, gtb_true. split.
  - apply Qnot_lt_le.
  - apply Qle_not_lt.
Qed.

Lemma max_ge_l x y : (x <= Math.max x y)%Q.
Proof. apply Q.le_max_l. Qed.

Lemma min_le_r x y : (Math.min x y <= y)%Q.
Proof. apply Q.le_min_r. Qed.

Lemma min_pos x y : (0 < x)%Q -> (0 < y)%Q -> (0 < Math.min x y)%Q.
Proof. intros Hx Hy. unfold Math.min. apply Q.min_glb_lt; assumption. Qed.

Lemma round_ge_1 x : (1 <= x)%Q -> (1 <= Math.round x)%Q.
Proof.
  intros H. unfold Math.round.
  assert (Hfl : (Qfloor 1 <= Qfloor (x + (1 # 2)))%Z)
    by (apply Qfloor_resp_le; lra).
  change (Qfloor 1) with 1%Z in Hfl.
  rewrite Zle_Qle in Hfl. exact Hfl.
Qed.

End NumberFacts.

(** ** Running the monad *)

Lemma bind_Return {A B} (m : M A) (f : A -> M B) w a w' :
  m w = Return a w' -> (m ≫= f) w = f a w'.
Proof. intros H. unfold mbind, M_bind. rewrite H. reflexivity. Qed.

Lemma bind_Throw {A B} (m : M A) (f : A -> M B) w e w' :
  m w = Throw e w' -> (m ≫= f) w = Throw e w'.
Proof. intros H. unfold mbind, M_bind. rewrite H. reflexivity. Qed.

Lemma Date_now_run w : Date_now w = Return (now_of w) (tick w).
Proof. reflexivity. Qed.

Lemma persisted_tick w : persisted (tick w) = persisted w.
Proof. reflexivity. Qed.

Lemma persisted_saved data items w : persisted (saved data items w) = data.
Proof.
  unfold persisted, saved, with_storage. simpl.
  rewrite lookup_insert_eq. reflexivity.
Qed.

(** Loading never raises, leaves the world as it is, and delivers the
    persisted mapping. *)
Lemma getRepetitionData_run w : getRepetitionData w = Return (persisted w) w.
Proof.
  unfold getRepetitionData, try_catch, persisted, mbind, M_bind, getItem.
  destruct (localStorage w) as [|items]; [reflexivity|].
  destruct (items !! STORAGE_KEY) as [[text|data]|]; try reflexivity.
  destruct text; reflexivity.
Qed.

Lemma getQuestionData_run id w :
  getQuestionData id w =
  match persisted w !! id with
  | Some data => Return data w
  | None => Return (default_record id (now_of w)) (tick w)
  end.
Proof.
  unfold getQuestionData.
  rewrite (bind_Return _ _ _ _ _ (getRepetitionData_run w)).
  destruct (persisted w !! id); reflexivity.
Qed.

Lemma saveRepetitionData_run data items w :
  localStorage w = Items items ->
  saveRepetitionData data w = Return tt (saved data items w).
Proof.
  intros H. unfold saveRepetitionData, setItem. rewrite H. reflexivity.
Qed.

Lemma saveRepetitionData_denied data w :
  localStorage w = Denied ->
  saveRepetitionData data w = Throw SecurityError w.
Proof.
  intros H. unfold saveRepetitionData, setItem. rewrite H. reflexivity.
Qed.

Lemma getQuestionData_frame id w r w1 :
  getQuestionData id w = Return r w1 ->
  localStorage w1 = localStorage w /\ clock w1 = clock w /\
  persisted w1 = persisted w.
Proof.
  rewrite getQuestionData_run.
  destruct (persisted w !! id); intros [= <- <-]; auto.
Qed.

Lemma getQuestionData_returns id w :
  exists r w1, getQuestionData id w = Return r w1.
Proof.
  rewrite getQuestionData_run. destruct (persisted w !! id); eauto.
Qed.

(** One answer, on a storage that can be written. *)
Lemma updateRepetition_run id isCorrect w items r w1 :
  localStorage w = Items items ->
  getQuestionData id w = Return r w1 ->
  updateRepetition id isCorrect w =
  Return (answered r isCorrect (now_of w1))
    (saved (<[id := answered r isCorrect (now_of w1)]> (persisted w)) items
       (tick w1)).
Proof.
  intros Hitems Hget.
  destruct (getQuestionData_frame _ _ _ _ Hget) as (Hls & _ & _).
  unfold updateRepetition.
  rewrite (bind_Return _ _ _ _ _ (getRepetitionData_run w)).
  rewrite (bind_Return _ _ _ _ _ Hget). cbv zeta.
  rewrite (bind_Return _ _ _ _ _ (Date_now_run w1)).
  assert (Hsave : localStorage (tick w1) = Items items)
    by (simpl; congruence).
  unfold answered, next_interval.
  destruct isCorrect;
    [destruct (Number.eqb (repetitions r) 0);
       [|destruct (Number.eqb (repetitions r) 1)]|];
    erewrite bind_Return by (apply saveRepetitionData_run, Hsave);
    reflexivity.
Qed.

(** On a storage that denies access the answer is lost with the write. *)
Lemma updateRepetition_denied id isCorrect w :
  localStorage w = Denied ->
  exists w', updateRepetition id isCorrect w = Throw SecurityError w'.
Proof.
  intros Hden.
  destruct (getQuestionData_returns id w) as (r & w1 & Hget).
  destruct (getQuestionData_frame _ _ _ _ Hget) as (Hls & _ & _).
  unfold updateRepetition.
  rewrite (bind_Return _ _ _ _ _ (getRepetitionData_run w)).
  rewrite (bind_Return _ _ _ _ _ Hget). cbv zeta.
  rewrite (bind_Return _ _ _ _ _ (Date_now_run w1)).
  eexists. erewrite bind_Throw; [reflexivity|].
  apply saveRepetitionData_denied. simpl. congruence.
Qed.

Lemma getQuestionData_stored id w r :
  persisted w !! id = Some r -> getQuestionData id w = Return r w.
Proof. intros H. rewrite getQuestionData_run, H. reflexivity. Qed.

Lemma getQuestionData_unseen id w :
  persisted w !! id = None ->
  getQuestionData id w = Return (default_record id (now_of w)) (tick w).
Proof. intros H. rewrite getQuestionData_run, H. reflexivity. Qed.

(** ** The store: loading *)

(** On the storages of the model the loader at run time returns the
    mapping that the model reads. *)
Lemma runtime_loader_within_type (w : World) :
  Runtime.getRepetitionData (at_run_time (localStorage w)) =
  Returns (Mapping (persisted w)).
Proof.
  unfold Runtime.getRepetitionData, Runtime.getItem, at_run_time, persisted.
  destruct (localStorage w) as [|items]; [reflexivity|].
  rewrite lookup_fmap.
  destruct (items !! STORAGE_KEY) as [[text|data]|]; try reflexivity.
  destruct text; reflexivity.
Qed.




(** ** The SM-2 transition *)

Lemma next_interval_first r :
  (repetitions r == 0)%Q -> next_interval r = 1%Q.
Proof.
  intros H. unfold next_interval.
  apply NumberFacts.eqb_true in H. rewrite H. reflexivity.
Qed.

Lemma next_interval_second r :
  (repetitions r == 1)%Q -> next_interval r = 6%Q.
Proof.
  intros H. unfold next_interval.
  assert (H0 : Number.eqb (repetitions r) 0 = false)
    by (apply NumberFacts.eqb_false; rewrite H; discriminate).
  apply NumberFacts.eqb_true in H. rewrite H0, H. reflexivity.
Qed.

Lemma next_interval_mature r :
  (2 <= repetitions r)%Q ->
  next_interval r = Math.round (interval r * easeFactor r).
Proof.
  intros H. unfold next_interval.
  assert (H0 : Number.eqb (repetitions r) 0 = false)
    by (apply NumberFacts.eqb_false; lra).
  assert (H1 : Number.eqb (repetitions r) 1 = false)
    by (apply NumberFacts.eqb_false; lra).
  rewrite H0, H1. reflexivity.
Qed.

Lemma answered_sm2_rules r isCorrect now :
  sm2_rules r isCorrect now (answered r isCorrect now).
Proof.
  destruct isCorrect; constructor; simpl;
    first [discriminate | intros _ | idtac]; try reflexivity.
  - apply next_interval_first.
  - apply next_interval_second.
  - apply next_interval_mature.
  - ring.
Qed.

(** C1. The update follows the SM-2 variant of the specification: on a
    storage that can be written, for the record [r] that the store gives
    for the question and either outcome, [updateRepetition] returns a
    record [r'] that obeys every transition rule (interval 1, 6 or
    round(interval * easeFactor) on a correct answer according to the
    repetitions of [r], repetitions + 1, ease factor raised by 0.1 with
    floor 1.3, last result correct; on an incorrect answer repetitions 0,
    interval 1, ease factor lowered by 0.3 with floor 1.3, last result
    incorrect; next review at now + interval' * 86400000), [now] being the
    clock value read for the update. *)
Theorem updateRepetition_sm2 (w : World) (items : gmap string document)
    (id : string) (isCorrect : bool) (r : RepetitionData) (w1 : World) :
  localStorage w = Items items ->
  getQuestionData id w = Return r w1 ->
  exists r' w',
    updateRepetition id isCorrect w = Return r' w' /\
    sm2_rules r isCorrect (now_of w1) r'.
Proof.
  intros Hitems Hget.
  rewrite (updateRepetition_run _ _ _ _ _ _ Hitems Hget).
  eexists _, _. split; [reflexivity|]. apply answered_sm2_rules.
Qed.

Lemma updateRepetition_sm2_witness :
  localStorage (world_of {[ "q" := second_success ]}) =
    Items {[ STORAGE_KEY := Stringified {[ "q" := second_success ]} ]} /\
  getQuestionData "q" (world_of {[ "q" := second_success ]}) =
    Return second_success (world_of {[ "q" := second_success ]}) /\
  exists r' w',
    updateRepetition "q" true (world_of {[ "q" := second_success ]}) =
      Return r' w' /\
    sm2_rules second_success true epoch r'.
Proof.
  split; [reflexivity|]. split; [reflexivity|].
  apply (updateRepetition_sm2 (world_of {[ "q" := second_success ]})
           {[ STORAGE_KEY := Stringified {[ "q" := second_success ]} ]}
           "q" true second_success (world_of {[ "q" := second_success ]}));
    reflexivity.
Defined.

(** C2, as stated, fails: a correct answer on the record with
    repetitions 1, interval 6 and ease factor 2.5 leaves the interval at 6,
    the second-success tier, and not at round(6 * 2.5) = 15. *)
Lemma second_success_interval_not_15 :
  ~ exists r' w',
      updateRepetition "q" true (world_of {[ "q" := second_success ]}) =
        Return r' w' /\
      (repetitions r' == 2)%Q /\ (interval r' == 15)%Q /\
      (easeFactor r' == 2.6)%Q /\ lastResult r' = Some correct.
Proof.
  intros (r' & w' & Hrun & _ & Hinterval & _).
  assert (Hget : getQuestionData "q" (world_of {[ "q" := second_success ]}) =
                 Return second_success (world_of {[ "q" := second_success ]}))
    by reflexivity.
  assert (Hitems : localStorage (world_of {[ "q" := second_success ]}) =
                   Items {[ STORAGE_KEY :=
                              Stringified {[ "q" := second_success ]} ]})
    by reflexivity.
  rewrite (updateRepetition_run _ _ _ _ _ _ Hitems Hget) in Hrun.
  injection Hrun as <- _.
  vm_compute in Hinterval. discriminate.
Qed.

(** C2, amended. A correct answer on a record with repetitions 1,
    interval 6 and ease factor 2.5, whatever its other fields, the other
    records and the clock, returns a record with repetitions 2, interval 6,
    ease factor 2.6 and last result correct. *)
Theorem second_success_scenario (items : gmap string document)
    (data : gmap string RepetitionData) (clock : nat -> Q) (reads : nat)
    (id qid : string) (due : Q) (last : option Result) :
  exists r' w',
    updateRepetition id true
      (mkWorld
         (Items (<[STORAGE_KEY :=
                     Stringified
                       (<[id := mkRepetitionData qid 2.5 6 1 due last]> data)]>
                   items))
         clock reads) = Return r' w' /\
    (repetitions r' == 2)%Q /\ (interval r' == 6)%Q /\
    (easeFactor r' == 2.6)%Q /\ lastResult r' = Some correct.
Proof.
  set (r := mkRepetitionData qid 2.5 6 1 due last).
  set (w := mkWorld _ clock reads).
  assert (Hget : getQuestionData id w = Return r w).
  { apply getQuestionData_stored. unfold persisted, w. simpl.
    rewrite lookup_insert_eq. apply lookup_insert_eq. }
  assert (Hitems : localStorage w = Items (<[STORAGE_KEY :=
            Stringified (<[id := r]> data)]> items)) by reflexivity.
  rewrite (updateRepetition_run _ _ _ _ _ _ Hitems Hget).
  eexists _, _. split; [reflexivity|].
  repeat split; reflexivity.
Qed.

(** ** The ease-factor floor *)

Lemma answered_floor r isCorrect now :
  (1.3 <= easeFactor (answered r isCorrect now))%Q.
Proof. destruct isCorrect; simpl; apply NumberFacts.max_ge_l. Qed.

Lemma saved_writable data items w :
  localStorage (saved data items w) =
  Items (<[STORAGE_KEY := Stringified data]> items).
Proof. reflexivity. Qed.

(** Every record of a run of answers respects the floor. *)
Lemma answerAll_floor id answers :
  forall w items,
    localStorage w = Items items ->
    exists rs w',
      answerAll id answers w = Return rs w' /\
      length rs = length answers /\
      Forall (fun r => (1.3 <= easeFactor r)%Q) rs.
Proof.
  induction answers as [|isCorrect answers IH]; intros w items Hitems.
  - exists [], w. repeat split. constructor.
  - destruct (getQuestionData_returns id w) as (r & w1 & Hget).
    pose proof (updateRepetition_run _ isCorrect _ _ _ _ Hitems Hget) as Hrun.
    destruct (IH _ _ (saved_writable
                        (<[id := answered r isCorrect (now_of w1)]> (persisted w))
                        items (tick w1)))
      as (rs & w' & Hrest & Hlen & Hall).
    exists (answered r isCorrect (now_of w1) :: rs), w'.
    split; [|split].
    + simpl. rewrite (bind_Return _ _ _ _ _ Hrun).
      rewrite (bind_Return _ _ _ _ _ Hrest). reflexivity.
    + simpl. congruence.
    + constructor; [apply answered_floor | exact Hall].
Qed.

(** C3. The ease-factor floor: on a storage that can be written, an update
    of a record whose ease factor is at least 1.3 returns, for either
    outcome, a record whose ease factor is at least 1.3; and any number of
    consecutive incorrect answers to a question that has no record yet,
    hence starts from the default record, returns only records whose ease
    factor is at least 1.3. *)
Theorem easeFactor_floor :
  (forall w items id isCorrect r w1,
      localStorage w = Items items ->
      getQuestionData id w = Return r w1 ->
      (1.3 <= easeFactor r)%Q ->
      exists r' w',
        updateRepetition id isCorrect w = Return r' w' /\
        (1.3 <= easeFactor r')%Q) /\
  (forall w items id n,
      localStorage w = Items items ->
      persisted w !! id = None ->
      exists rs w',
        answerAll id (replicate n false) w = Return rs w' /\
        length rs = n /\
        Forall (fun r => (1.3 <= easeFactor r)%Q) rs).
Proof.
  split.
  - intros w items id isCorrect r w1 Hitems Hget _.
    rewrite (updateRepetition_run _ _ _ _ _ _ Hitems Hget).
    eexists _, _. split; [reflexivity | apply answered_floor].
  - intros w items id n Hitems _.
    destruct (answerAll_floor id (replicate n false) w items Hitems)
      as (rs & w' & Hrun & Hlen & Hall).
    exists rs, w'. rewrite length_replicate in Hlen. auto.
Qed.

Lemma easeFactor_floor_witness :
  (exists r' w',
      updateRepetition "q" false (world_of {[ "q" := zero_interval ]}) =
        Return r' w' /\
      (1.3 <= easeFactor r')%Q) /\
  (exists rs w',
      answerAll "q" (replicate 6 false) empty_world = Return rs w' /\
      length rs = 6 /\
      Forall (fun r => (1.3 <= easeFactor r)%Q) rs).
Proof.
  split.
  - apply (proj1 easeFactor_floor (world_of {[ "q" := zero_interval ]})
             {[ STORAGE_KEY := Stringified {[ "q" := zero_interval ]} ]}
             "q" false zero_interval (world_of {[ "q" := zero_interval ]}));
      [reflexivity | reflexivity | vm_compute; discriminate].
  - apply (proj2 easeFactor_floor empty_world ∅ "q" 6);
      reflexivity.
Defined.

(** ** The next review lies a day ahead *)

Lemma isDue_stored now id w r :
  persisted w !! id = Some r ->
  isDue now id w =
  Return match lastResult r with
         | Some correct => Number.leb (nextReview r) now
         | _ => true
         end w.
Proof.
  intros H. unfold isDue.
  rewrite (bind_Return _ _ _ _ _ (getQuestionData_stored _ _ _ H)).
  destruct (lastResult r) as [[|]|]; reflexivity.
Qed.

Lemma next_interval_ge_1 r :
  (1 <= interval r)%Q -> (1.3 <= easeFactor r)%Q -> (1 <= next_interval r)%Q.
Proof.
  intros Hi He. unfold next_interval.
  destruct (Number.eqb (repetitions r) 0); [lra|].
  destruct (Number.eqb (repetitions r) 1); [lra|].
  apply NumberFacts.round_ge_1. nra.
Qed.

Lemma answered_interval_ge_1 r isCorrect now :
  (1 <= interval r)%Q -> (1.3 <= easeFactor r)%Q ->
  (1 <= interval (answered r isCorrect now))%Q.
Proof.
  intros Hi He. destruct isCorrect; simpl; [|lra].
  apply next_interval_ge_1; assumption.
Qed.

Lemma answered_nextReview r isCorrect now :
  (nextReview (answered r isCorrect now) ==
   now + interval (answered r isCorrect now) * 86400000)%Q.
Proof. destruct isCorrect; simpl; ring. Qed.

Lemma answered_lastResult r isCorrect now :
  lastResult (answered r isCorrect now) =
  Some (if isCorrect then correct else incorrect).
Proof. destruct isCorrect; reflexivity. Qed.

Lemma isDue_returns now id w :
  exists due w', isDue now id w = Return due w' /\
                 localStorage w' = localStorage w.
Proof.
  destruct (getQuestionData_returns id w) as (r & w1 & Hget).
  destruct (getQuestionData_frame _ _ _ _ Hget) as (Hls & _ & _).
  unfold isDue. rewrite (bind_Return _ _ _ _ _ Hget).
  destruct (lastResult r) as [[|]|]; eexists _, w1; split;
    first [reflexivity | exact Hls].
Qed.

(** The two queries keep the ids that [isDue] accepts and never raise. *)
Lemma filterM_isDue_returns {T} (id : T -> string) now questions :
  forall w,
    exists kept w',
      filterM (fun q => isDue now (id q)) questions w = Return kept w' /\
      length kept <= length questions /\
      localStorage w' = localStorage w.
Proof.
  induction questions as [|q questions IH]; intros w.
  - exists [], w. repeat split. reflexivity.
  - destruct (isDue_returns now (id q) w) as (due & w1 & Hdue & Hls1).
    destruct (IH w1) as (kept & w' & Hrest & Hlen & Hls).
    exists (if due then q :: kept else kept), w'.
    split; [|split].
    + simpl. rewrite (bind_Return _ _ _ _ _ Hdue).
      rewrite (bind_Return _ _ _ _ _ Hrest). reflexivity.
    + destruct due; simpl; lia.
    + congruence.
Qed.

Lemma getQuestionsForReview_returns {T} (id : T -> string) questions w :
  exists kept w',
    getQuestionsForReview id questions w = Return kept w' /\
    length kept <= length questions.
Proof.
  destruct (filterM_isDue_returns id (now_of w) questions (tick w))
    as (kept & w' & Hrun & Hlen & _).
  exists kept, w'. split; [|exact Hlen].
  unfold getQuestionsForReview.
  rewrite (bind_Return _ _ _ _ _ (Date_now_run w)). exact Hrun.
Qed.

Lemma getReviewCount_returns questionIds w :
  exists count w',
    getReviewCount questionIds w = Return count w' /\
    count <= length questionIds.
Proof.
  destruct (filterM_isDue_returns (fun id => id) (now_of w) questionIds (tick w))
    as (kept & w' & Hrun & Hlen & _).
  exists (length kept), w'. split; [|exact Hlen].
  unfold getReviewCount.
  rewrite (bind_Return _ _ _ _ _ (Date_now_run w)).
  rewrite (bind_Return _ _ _ _ _ Hrun). reflexivity.
Qed.

(** C10, as stated, fails: the record with interval 0, ease factor 1.3 and
    two repetitions satisfies interval >= 0 and easeFactor >= 1.3, and a
    correct answer gives it interval round(0 * 1.3) = 0 and a next review at
    the very instant of the update, so that the question is due at once. *)
Lemma zero_interval_due_at_once :
  (0 <= interval zero_interval)%Q /\ (1.3 <= easeFactor zero_interval)%Q /\
  getQuestionData "q" (world_of {[ "q" := zero_interval ]}) =
    Return zero_interval (world_of {[ "q" := zero_interval ]}) /\
  exists r' w',
    updateRepetition "q" true (world_of {[ "q" := zero_interval ]}) =
      Return r' w' /\
    ~ (1 <= interval r')%Q /\
    ~ (ticking 0 + 86400000 <= nextReview r')%Q /\
    isDue (ticking 0) "q" w' = Return true w'.
Proof.
  split; [vm_compute; discriminate|].
  split; [vm_compute; discriminate|].
  assert (Hget : getQuestionData "q" (world_of {[ "q" := zero_interval ]}) =
                 Return zero_interval (world_of {[ "q" := zero_interval ]}))
    by reflexivity.
  assert (Hitems : localStorage (world_of {[ "q" := zero_interval ]}) =
                   Items {[ STORAGE_KEY :=
                              Stringified {[ "q" := zero_interval ]} ]})
    by reflexivity.
  split; [exact Hget|].
  rewrite (updateRepetition_run _ true _ _ _ _ Hitems Hget).
  eexists _, _. split; [reflexivity|].
  split; [|split].
  - vm_compute. intros H. apply H. reflexivity.
  - vm_compute. intros H. apply H. reflexivity.
  - erewrite isDue_stored
      by (rewrite persisted_saved; apply lookup_insert_eq).
    reflexivity.
Qed.

Lemma round_half_ge_1 x : (0.5 <= x)%Q -> (1 <= Math.round x)%Q.
Proof.
  intros H. unfold Math.round.
  assert (Hfl : (Qfloor 1 <= Qfloor (x + (1 # 2)))%Z)
    by (apply Qfloor_resp_le; lra).
  change (Qfloor 1) with 1%Z in Hfl.
  rewrite Zle_Qle in Hfl. exact Hfl.
Qed.

Lemma next_interval_ge_1_from_half r :
  (~ (repetitions r == 0)%Q -> ~ (repetitions r == 1)%Q ->
   (0.5 <= interval r * easeFactor r)%Q) ->
  (1 <= next_interval r)%Q.
Proof.
  intros Hhalf. unfold next_interval.
  destruct (Number.eqb (repetitions r) 0) eqn:H0; [lra|].
  destruct (Number.eqb (repetitions r) 1) eqn:H1; [lra|].
  apply NumberFacts.eqb_false in H0, H1.
  apply round_half_ge_1, Hhalf; assumption.
Qed.

(** C10, amended. On a storage that can be written, an update of a record
    with interval >= 0 and easeFactor >= 1.3 returns, for either outcome,
    a record with interval' >= 1 and nextReview' >= now + 86400000, [now]
    being the clock value read for the update, provided that
    interval * easeFactor >= 0.5 when the answer is correct and the
    repetitions are neither 0 nor 1; the test nextReview' <= now fails on
    the returned record; and, as long as interval' is at most [max_days],
    so that the next review time is saved as a finite number, the due
    predicate of [getQuestionsForReview] and [getReviewCount], evaluated
    with that [now] right after the update, rejects the question when the
    answer was correct and accepts it when the answer was incorrect. *)
Theorem next_review_a_day_ahead (w : World) (items : gmap string document)
    (id : string) (isCorrect : bool) (r : RepetitionData) (w1 : World) :
  localStorage w = Items items ->
  getQuestionData id w = Return r w1 ->
  (0 <= interval r)%Q ->
  (1.3 <= easeFactor r)%Q ->
  (isCorrect = true ->
   ~ (repetitions r == 0)%Q -> ~ (repetitions r == 1)%Q ->
   (0.5 <= interval r * easeFactor r)%Q) ->
  exists r' w',
    updateRepetition id isCorrect w = Return r' w' /\
    (1 <= interval r')%Q /\
    (now_of w1 + 86400000 <= nextReview r')%Q /\
    Number.leb (nextReview r') (now_of w1) = false /\
    ((interval r' <= max_days)%Q ->
     isDue (now_of w1) id w' = Return (negb isCorrect) w').
Proof.
  intros Hitems Hget _ _ Hhalf.
  rewrite (updateRepetition_run _ _ _ _ _ _ Hitems Hget).
  set (now := now_of w1). set (r' := answered r isCorrect now).
  assert (Hi' : (1 <= interval r')%Q).
  { unfold r'. destruct isCorrect; simpl; [|lra].
    apply next_interval_ge_1_from_half, Hhalf. reflexivity. }
  pose proof (answered_nextReview r isCorrect now) as Hnext.
  fold r' in Hnext.
  assert (Hahead : (now + 86400000 <= nextReview r')%Q) by lra.
  assert (Hnot_due : Number.leb (nextReview r') now = false)
    by (apply NumberFacts.leb_false; lra).
  eexists _, _. split; [reflexivity|].
  repeat split; try assumption.
  intros _.
  erewrite isDue_stored
    by (rewrite persisted_saved; apply lookup_insert_eq).
  fold r'. unfold r' at 1. rewrite answered_lastResult.
  destruct isCorrect; [fold r'; rewrite Hnot_due|]; reflexivity.
Qed.

Lemma next_review_a_day_ahead_witness :
  localStorage (world_of {[ "q" := two_successes ]}) =
    Items {[ STORAGE_KEY := Stringified {[ "q" := two_successes ]} ]} /\
  getQuestionData "q" (world_of {[ "q" := two_successes ]}) =
    Return two_successes (world_of {[ "q" := two_successes ]}) /\
  (0 <= interval two_successes)%Q /\
  (1.3 <= easeFactor two_successes)%Q /\
  (0.5 <= interval two_successes * easeFactor two_successes)%Q /\
  exists r' w',
    updateRepetition "q" true (world_of {[ "q" := two_successes ]}) =
      Return r' w' /\
    (1 <= interval r')%Q /\
    (now_of (world_of {[ "q" := two_successes ]}) + 86400000
       <= nextReview r')%Q /\
    (interval r' <= max_days)%Q /\
    isDue (now_of (world_of {[ "q" := two_successes ]})) "q" w' =
      Return false w'.
Proof.
  assert (H1 : (0 <= interval two_successes)%Q)
    by (vm_compute; discriminate).
  assert (H2 : (1.3 <= easeFactor two_successes)%Q)
    by (vm_compute; discriminate).
  assert (H3 : (0.5 <= interval two_successes * easeFactor two_successes)%Q)
    by (vm_compute; discriminate).
  assert (Hitems : localStorage (world_of {[ "q" := two_successes ]}) =
                   Items {[ STORAGE_KEY :=
                              Stringified {[ "q" := two_successes ]} ]})
    by reflexivity.
  assert (Hget : getQuestionData "q" (world_of {[ "q" := two_successes ]}) =
                 Return two_successes (world_of {[ "q" := two_successes ]}))
    by reflexivity.
  repeat (split; [assumption|]).
  destruct (next_review_a_day_ahead (world_of {[ "q" := two_successes ]})
              _ "q" true two_successes _ Hitems Hget H1 H2 (fun _ _ _ => H3))
    as (r' & w' & Hrun & Hinterval & Hahead & _ & Hdue).
  assert (Hfinite : (interval r' <= max_days)%Q).
  { rewrite (updateRepetition_run _ _ _ _ _ _ Hitems Hget) in Hrun.
    injection Hrun as <- _. vm_compute. discriminate. }
  exists r', w'. repeat (split; [assumption|]). apply Hdue, Hfinite.
Defined.

(** ** Priority *)

Lemma getPriorityScore_run id w r w1 :
  getQuestionData id w = Return r w1 ->
  exists w2, getPriorityScore id w = Return (score_of r (now_of w1)) w2.
Proof.
  intros Hget. unfold getPriorityScore, score_of.
  rewrite (bind_Return _ _ _ _ _ Hget).
  destruct (lastResult r) as [[|]|]; [|eexists; reflexivity..].
  rewrite (bind_Return _ _ _ _ _ (Date_now_run w1)). cbv zeta.
  change (24 * 60 * 60 * 1000)%Q with 86400000%Q.
  destruct (Number.gtb _ 0); eexists; reflexivity.
Qed.

Lemma overdue_score_range d :
  (0 < d)%Q ->
  (30 < 30 + Math.min (d * 5) 50)%Q /\ (30 + Math.min (d * 5) 50 <= 80)%Q.
Proof.
  intros Hd.
  assert (H1 : (0 < Math.min (d * 5) 50)%Q)
    by (apply NumberFacts.min_pos; lra).
  pose proof (NumberFacts.min_le_r (d * 5) 50) as H2.
  split; lra.
Qed.

Lemma score_of_rules r now : priority_rules r now (score_of r now).
Proof.
  unfold score_of. constructor.
  - intros ->. reflexivity.
  - intros ->. reflexivity.
  - intros -> Hd. apply NumberFacts.gtb_true in Hd as Hgt. rewrite Hgt.
    split; [reflexivity | apply overdue_score_range, Hd].
  - intros -> Hd. apply NumberFacts.gtb_false in Hd. rewrite Hd.
    reflexivity.
Qed.

(** C4. For the record [r] that the store gives for a question and the
    clock value [now] read for the score, [getPriorityScore] returns 50
    when the last result is unset, 100 - easeFactor * 10 when it is
    incorrect, and otherwise, with daysOverdue = (now - nextReview) /
    86400000, the score 30 + min(daysOverdue * 5, 50), which lies in
    (30, 80], when daysOverdue > 0 and easeFactor * 5 when
    daysOverdue <= 0. *)
Theorem getPriorityScore_rules (w : World) (id : string)
    (r : RepetitionData) (w1 : World) :
  getQuestionData id w = Return r w1 ->
  exists score w2,
    getPriorityScore id w = Return score w2 /\
    priority_rules r (now_of w1) score.
Proof.
  intros Hget.
  destruct (getPriorityScore_run _ _ _ _ Hget) as (w2 & Hrun).
  exists (score_of r (now_of w1)), w2. split; [exact Hrun|].
  apply score_of_rules.
Qed.

Lemma getPriorityScore_rules_witness :
  getQuestionData "overdue" (world_of review_pool) =
    Return overdue (world_of review_pool) /\
  exists score w2,
    getPriorityScore "overdue" (world_of review_pool) = Return score w2 /\
    priority_rules overdue (now_of (world_of review_pool)) score.
Proof.
  split; [reflexivity|].
  apply (getPriorityScore_rules (world_of review_pool) "overdue" overdue
           (world_of review_pool)).
  reflexivity.
Defined.

Lemma days_overdue_scaled (now next : Q) :
  ((now - next) / 86400000 * 86400000 == now - next)%Q.
Proof. field. Qed.


Lemma score_of_overdue r now :
  lastResult r = Some correct -> (nextReview r < now)%Q ->
  score_of r now = (30 + Math.min ((now - nextReview r) / 86400000 * 5) 50)%Q.
Proof.
  unfold score_of. intros -> Hlate.
  pose proof (days_overdue_scaled now (nextReview r)) as Hd.
  assert (Hgt : Number.gtb ((now - nextReview r) / 86400000) 0 = true)
    by (apply NumberFacts.gtb_true; lra).
  rewrite Hgt. reflexivity.
Qed.





(** ** Statistics *)

Lemma tally_bucket allData now stats id :
  tally allData now stats id = incr (bucket_of (allData !! id) now) stats.
Proof.
  unfold tally, bucket_of.
  destruct (allData !! id) as [r|]; [|reflexivity].
  destruct (lastResult r) as [[|]|]; try reflexivity.
  destruct (decide ((21 <= interval r)%Q /\ (3 <= repetitions r)%Q))
    as [[Hi Hr]|Hnot].
  - apply NumberFacts.geb_true in Hi, Hr. rewrite Hi, Hr. reflexivity.
  - assert (Hand : Number.geb (interval r) 21 && Number.geb (repetitions r) 3
                   = false).
    { apply not_true_iff_false. intros [Hi Hr]%andb_true_iff.
      apply Hnot. split; apply NumberFacts.geb_true; assumption. }
    rewrite Hand.
    destruct (decide ((nextReview r <= now)%Q)) as [Hdue|Hnot_due].
    + apply NumberFacts.leb_true in Hdue. rewrite Hdue. reflexivity.
    + apply Qnot_le_lt, NumberFacts.leb_false in Hnot_due.
      rewrite Hnot_due. reflexivity.
Qed.

Lemma count_in_incr b b' stats :
  count_in b (incr b' stats) =
  (if decide (b' = b) then S (count_in b stats) else count_in b stats).
Proof. destruct b, b'; reflexivity. Qed.

Lemma in_bucket_cons b allData now id ids :
  in_bucket b allData now (id :: ids) =
  (if decide (bucket_of (allData !! id) now = b)
   then S (in_bucket b allData now ids) else in_bucket b allData now ids).
Proof.
  unfold in_bucket. rewrite filter_cons.
  destruct (decide (bucket_of (allData !! id) now = b)); reflexivity.
Qed.

(** The loop adds to each counter the number of ids of its bucket. *)
Lemma foldl_tally_count b allData now ids :
  forall stats,
    count_in b (foldl (tally allData now) stats ids) =
    count_in b stats + in_bucket b allData now ids.
Proof.
  induction ids as [|id ids IH]; intros stats.
  - simpl. unfold in_bucket. simpl. lia.
  - simpl. rewrite IH, tally_bucket, count_in_incr, in_bucket_cons.
    destruct (decide (bucket_of (allData !! id) now = b)); lia.
Qed.

Lemma buckets_exhaust allData now ids :
  in_bucket Mastered allData now ids + in_bucket Learning allData now ids +
  in_bucket NeedsReview allData now ids + in_bucket NotStarted allData now ids
  = length ids.
Proof.
  induction ids as [|id ids IH]; [reflexivity|].
  rewrite !in_bucket_cons. simpl length.
  destruct (bucket_of (allData !! id) now);
    repeat case_decide; try congruence; lia.
Qed.

(** C6. For every list of ids, every state of the store and every clock
    value, [getRepetitionStats] returns counters in which each bucket
    counts the ids that the precedence rules assign to it (no record or
    last result unset: not started; incorrect: needs review; correct with
    interval >= 21 and repetitions >= 3: mastered; correct with nextReview
    <= now: needs review; otherwise: learning), every id falling in exactly
    one bucket, and the four counters add up to the number of ids. *)
Theorem getRepetitionStats_partition (w : World) (ids : list string) :
  exists stats w',
    getRepetitionStats ids w = Return stats w' /\
    (forall b, count_in b stats = in_bucket b (persisted w) (now_of w) ids) /\
    mastered stats + learning stats + needsReview stats + notStarted stats
    = length ids.
Proof.
  unfold getRepetitionStats.
  rewrite (bind_Return _ _ _ _ _ (getRepetitionData_run w)). cbv zeta.
  rewrite (bind_Return _ _ _ _ _ (Date_now_run w)).
  eexists _, _. split; [reflexivity|].
  set (stats := foldl _ _ ids).
  assert (Hcount : forall b,
             count_in b stats = in_bucket b (persisted w) (now_of w) ids).
  { intros b. unfold stats. rewrite foldl_tally_count. destruct b; reflexivity. }
  split; [exact Hcount|].
  rewrite <- (buckets_exhaust (persisted w) (now_of w) ids).
  rewrite <- !Hcount. reflexivity.
Qed.

(** ** The store: reading one record, deleting many *)

(** C7, as stated, fails: for a question without a record the default
    carries the clock value of the call as its next review, and two calls
    with no write between them, made at different instants, return records
    that differ in that field. *)
Lemma unseen_question_read_twice :
  exists r1 w1 r2 w2,
    getQuestionData "q" empty_world = Return r1 w1 /\
    getQuestionData "q" w1 = Return r2 w2 /\
    localStorage w1 = localStorage empty_world /\
    ~ (nextReview r1 == nextReview r2)%Q /\
    r1 <> r2.
Proof.
  eexists _, _, _, _.
  split; [reflexivity|]. split; [reflexivity|]. split; [reflexivity|].
  split.
  - vm_compute. discriminate.
  - intros H. apply (f_equal nextReview) in H. vm_compute in H.
    discriminate.
Qed.

(** C7, amended. [getQuestionData] returns the stored record when the
    store holds one for the id, and otherwise the default record with ease
    factor 2.5, interval 1, repetitions 0, last result unset and the clock
    value of the call as next review; it leaves the storage as it was; and
    two calls for the same id with no write between them return records
    that agree on every field other than the next review, and that are
    equal when the store holds a record for the id or when both calls read
    the same clock value. *)
Theorem getQuestionData_reads_only (w : World) (id : string) :
  exists r1 w1 r2 w2,
    getQuestionData id w = Return r1 w1 /\
    getQuestionData id w1 = Return r2 w2 /\
    match persisted w !! id with
    | Some r => r1 = r
    | None =>
        r1 = mkRepetitionData id 2.5 1 0 (now_of w) None /\
        r2 = mkRepetitionData id 2.5 1 0 (now_of w1) None
    end /\
    localStorage w1 = localStorage w /\ localStorage w2 = localStorage w /\
    persisted w1 = persisted w /\ persisted w2 = persisted w /\
    set_nextReview 0 r1 = set_nextReview 0 r2 /\
    (is_Some (persisted w !! id) \/ now_of w1 = now_of w -> r1 = r2).
Proof.
  rewrite (getQuestionData_run id w).
  destruct (persisted w !! id) as [r|] eqn:Hlookup.
  - exists r, w, r, w. rewrite (getQuestionData_stored _ _ _ Hlookup).
    repeat split.
  - exists (default_record id (now_of w)), (tick w),
           (default_record id (now_of (tick w))), (tick (tick w)).
    rewrite (getQuestionData_unseen id (tick w)) by exact Hlookup.
    repeat split.
    intros [[r Hr]|Hnow]; [discriminate|]. rewrite Hnow. reflexivity.
Qed.

Lemma getQuestionData_reads_only_witness :
  exists r1 w1 r2 w2,
    getQuestionData "q" (world_of {[ "q" := second_success ]}) =
      Return r1 w1 /\
    getQuestionData "q" w1 = Return r2 w2 /\
    r1 = second_success /\ r1 = r2.
Proof.
  destruct (getQuestionData_reads_only
              (world_of {[ "q" := second_success ]}) "q")
    as (r1 & w1 & r2 & w2 & H1 & H2 & Hstored & _ & _ & _ & _ & _ & Heq).
  exists r1, w1, r2, w2.
  split; [exact H1|]. split; [exact H2|].
  split; [exact Hstored|].
  apply Heq. left. exists second_success. reflexivity.
Defined.

Lemma foldl_delete_lookup (ids : list string) :
  forall (data : gmap string RepetitionData) (id : string),
    foldl (fun data id => delete id data) data ids !! id =
    if decide (id ∈ ids) then None else data !! id.
Proof.
  induction ids as [|id' ids IH]; intros data id; cbn [foldl].
  - destruct (decide (id ∈ [])) as [Hin|_]; [|reflexivity].
    exfalso. exact (not_elem_of_nil _ Hin).
  - rewrite IH.
    destruct (decide (id ∈ ids)) as [Hin|Hout];
      destruct (decide (id ∈ id' :: ids)) as [Hin'|Hout'];
      try reflexivity.
    + exfalso. apply Hout'. right. exact Hin.
    + apply elem_of_cons in Hin' as [->|Hin']; [|contradiction].
      apply lookup_delete_eq.
    + apply lookup_delete_ne. intros ->. apply Hout'. left.
Qed.

Lemma clearRepetitionForChapter_run ids w items :
  localStorage w = Items items ->
  clearRepetitionForChapter ids w =
  Return tt
    (saved (foldl (fun data id => delete id data) (persisted w) ids) items w).
Proof.
  intros Hitems. unfold clearRepetitionForChapter.
  rewrite (bind_Return _ _ _ _ _ (getRepetitionData_run w)). cbv zeta.
  apply saveRepetitionData_run, Hitems.
Qed.

Lemma clearAllRepetitionData_run w items :
  localStorage w = Items items ->
  exists w', clearAllRepetitionData w = Return tt w' /\ persisted w' = ∅.
Proof.
  intros Hitems. unfold clearAllRepetitionData, removeItem. rewrite Hitems.
  eexists. split; [reflexivity|].
  unfold persisted, with_storage. simpl. rewrite lookup_delete_eq.
  reflexivity.
Qed.

(** C8. On a storage that can be written, whatever the store holds and
    whatever ids are listed, present in the store or not,
    [clearRepetitionForChapter] returns without raising; afterwards the
    store holds no record for a listed id and, for every other id, what it
    held before; and [getQuestionData] on a listed id returns the default
    record, with no last result, built at the instant of that call. *)
Theorem clearRepetitionForChapter_removes (w : World)
    (items : gmap string document) (ids : list string) :
  localStorage w = Items items ->
  exists w',
    clearRepetitionForChapter ids w = Return tt w' /\
    (forall id, persisted w' !! id =
                if decide (id ∈ ids) then None else persisted w !! id) /\
    (forall id, id ∈ ids ->
                getQuestionData id w' =
                Return (mkRepetitionData id 2.5 1 0 (now_of w') None)
                  (tick w')).
Proof.
  intros Hitems.
  rewrite (clearRepetitionForChapter_run _ _ _ Hitems).
  eexists. split; [reflexivity|].
  assert (Hlookup : forall id,
             persisted
               (saved (foldl (fun data id => delete id data) (persisted w) ids)
                  items w) !! id =
             if decide (id ∈ ids) then None else persisted w !! id).
  { intros id. rewrite persisted_saved. apply foldl_delete_lookup. }
  split; [exact Hlookup|].
  intros id Hin. apply getQuestionData_unseen.
  rewrite Hlookup, decide_True by exact Hin. reflexivity.
Qed.

Lemma clearRepetitionForChapter_removes_witness :
  localStorage (world_of review_pool) =
    Items {[ STORAGE_KEY := Stringified review_pool ]} /\
  exists w',
    clearRepetitionForChapter ["missed"; "fresh"] (world_of review_pool) =
      Return tt w' /\
    persisted w' !! "missed" = None /\
    persisted w' !! "overdue" = Some overdue /\
    getQuestionData "missed" w' =
      Return (mkRepetitionData "missed" 2.5 1 0 (now_of w') None) (tick w').
Proof.
  split; [reflexivity|].
  destruct (clearRepetitionForChapter_removes (world_of review_pool)
              {[ STORAGE_KEY := Stringified review_pool ]}
              ["missed"; "fresh"] eq_refl)
    as (w' & Hrun & Hlookup & Hdefault).
  exists w'. split; [exact Hrun|].
  split; [|split].
  - rewrite Hlookup. reflexivity.
  - rewrite Hlookup. reflexivity.
  - apply Hdefault. left.
Defined.

(** * Further properties of the module *)

(** ** Writing the store and reading it back *)

Lemma degraded_saved data items w : degraded (saved data items w) = false.
Proof.
  unfold degraded, saved, with_storage. simpl.
  rewrite lookup_insert_eq. reflexivity.
Qed.

Lemma getItem_saved key data items w :
  key <> STORAGE_KEY ->
  getItem key (saved data items w) =
  Return (items !! key) (saved data items w).
Proof.
  intros Hkey. unfold getItem, saved, with_storage. simpl.
  rewrite lookup_insert_ne by congruence. reflexivity.
Qed.

Lemma degraded_persisted w : degraded w = true -> persisted w = ∅.
Proof.
  unfold degraded, persisted.
  destruct (localStorage w) as [|items]; [reflexivity|].
  destruct (items !! STORAGE_KEY) as [[text|data]|];
    first [reflexivity | discriminate].
Qed.

(** X2. An update is persisted: on a storage that can be written, for a
    question whose record, stored or default, has a non-negative interval
    and ease factor, and as long as the new interval is at most
    [max_days], so that the new record holds only finite numbers,
    [getQuestionData] called after [updateRepetition] returns the record
    that the update returned, without reading the clock; the records of
    the other questions and the other keys of [localStorage] are
    untouched. *)
Theorem updateRepetition_persists (w : World) (items : gmap string document)
    (id : string) (isCorrect : bool) (r : RepetitionData) (w1 : World) :
  localStorage w = Items items ->
  getQuestionData id w = Return r w1 ->
  (0 <= interval r)%Q ->
  (0 <= easeFactor r)%Q ->
  exists r' w',
    updateRepetition id isCorrect w = Return r' w' /\
    ((interval r' <= max_days)%Q -> getQuestionData id w' = Return r' w') /\
    (forall id', id' <> id -> persisted w' !! id' = persisted w !! id') /\
    (forall key, key <> STORAGE_KEY ->
                 getItem key w' = Return (items !! key) w').
Proof.
  intros Hitems Hget _ _.
  rewrite (updateRepetition_run _ _ _ _ _ _ Hitems Hget).
  eexists _, _. split; [reflexivity|].
  split; [|split].
  - intros _. apply getQuestionData_stored.
    rewrite persisted_saved. apply lookup_insert_eq.
  - intros id' Hne. rewrite persisted_saved.
    apply lookup_insert_ne. congruence.
  - intros key Hkey. apply getItem_saved, Hkey.
Qed.

Lemma updateRepetition_persists_witness :
  localStorage (world_of review_pool) =
    Items {[ STORAGE_KEY := Stringified review_pool ]} /\
  getQuestionData "resting" (world_of review_pool) =
    Return resting (world_of review_pool) /\
  (0 <= interval resting)%Q /\
  (0 <= easeFactor resting)%Q /\
  exists r' w',
    updateRepetition "resting" true (world_of review_pool) = Return r' w' /\
    (interval r' <= max_days)%Q /\
    getQuestionData "resting" w' = Return r' w' /\
    persisted w' !! "overdue" = Some overdue.
Proof.
  assert (Hitems : localStorage (world_of review_pool) =
                   Items {[ STORAGE_KEY := Stringified review_pool ]})
    by reflexivity.
  assert (Hstored : getQuestionData "resting" (world_of review_pool) =
                    Return resting (world_of review_pool)) by reflexivity.
  assert (H1 : (0 <= interval resting)%Q) by (vm_compute; discriminate).
  assert (H2 : (0 <= easeFactor resting)%Q) by (vm_compute; discriminate).
  repeat (split; [assumption|]).
  destruct (updateRepetition_persists (world_of review_pool) _ "resting" true
              resting _ Hitems Hstored H1 H2)
    as (r' & w' & Hrun & Hget & Hframe & _).
  assert (Hfinite : (interval r' <= max_days)%Q).
  { rewrite (updateRepetition_run _ _ _ _ _ _ Hitems Hstored) in Hrun.
    injection Hrun as <- _. vm_compute. discriminate. }
  exists r', w'. split; [exact Hrun|]. split; [exact Hfinite|].
  split; [apply Hget, Hfinite|].
  rewrite (Hframe "overdue") by discriminate. reflexivity.
Defined.

(** X3. On a storage that can be written but holds no document, or one
    that does not parse, an update starts from the default record, and what
    it saves is a well-formed document that holds the new record and
    nothing else: a corrupt document is overwritten. *)
Theorem updateRepetition_on_degraded (w : World)
    (items : gmap string document) (id : string) (isCorrect : bool) :
  localStorage w = Items items ->
  degraded w = true ->
  exists r' w',
    updateRepetition id isCorrect w = Return r' w' /\
    r' = answered (default_record id (now_of w)) isCorrect (now_of (tick w)) /\
    persisted w' = {[ id := r' ]} /\
    degraded w' = false.
Proof.
  intros Hitems Hdegraded.
  pose proof (degraded_persisted _ Hdegraded) as Hempty.
  assert (Hget : getQuestionData id w =
                 Return (default_record id (now_of w)) (tick w))
    by (apply getQuestionData_unseen; rewrite Hempty; apply lookup_empty).
  rewrite (updateRepetition_run _ _ _ _ _ _ Hitems Hget).
  eexists _, _. split; [reflexivity|]. split; [reflexivity|].
  split.
  - rewrite persisted_saved, Hempty. reflexivity.
  - apply degraded_saved.
Qed.

Lemma updateRepetition_on_degraded_witness :
  localStorage corrupt_world =
    Items {[ STORAGE_KEY := Malformed "{oops" ]} /\
  degraded corrupt_world = true /\
  exists r' w',
    updateRepetition "q" false corrupt_world = Return r' w' /\
    r' = answered (default_record "q" (now_of corrupt_world)) false
           (now_of (tick corrupt_world)) /\
    persisted w' = {[ "q" := r' ]} /\
    degraded w' = false.
Proof.
  split; [reflexivity|]. split; [reflexivity|].
  apply (updateRepetition_on_degraded corrupt_world
           {[ STORAGE_KEY := Malformed "{oops" ]} "q" false);
    reflexivity.
Defined.

(** X4. Reads are guarded, writes are not: on a storage that denies
    access, [updateRepetition], [clearRepetitionForChapter] and
    [clearAllRepetitionData] raise the [SecurityError] of the storage, and
    the storage stays as it was. *)
Theorem writes_raise_when_denied (w : World) (id : string)
    (isCorrect : bool) (ids : list string) :
  localStorage w = Denied ->
  (exists w', updateRepetition id isCorrect w = Throw SecurityError w' /\
              localStorage w' = Denied) /\
  clearRepetitionForChapter ids w = Throw SecurityError w /\
  clearAllRepetitionData w = Throw SecurityError w.
Proof.
  intros Hdenied. split; [|split].
  - destruct (getQuestionData_returns id w) as (r & w1 & Hget).
    destruct (getQuestionData_frame _ _ _ _ Hget) as (Hls & _ & _).
    unfold updateRepetition.
    rewrite (bind_Return _ _ _ _ _ (getRepetitionData_run w)).
    rewrite (bind_Return _ _ _ _ _ Hget). cbv zeta.
    rewrite (bind_Return _ _ _ _ _ (Date_now_run w1)).
    exists (tick w1). split; [|simpl; congruence].
    erewrite bind_Throw; [reflexivity|].
    apply saveRepetitionData_denied. simpl. congruence.
  - unfold clearRepetitionForChapter.
    rewrite (bind_Return _ _ _ _ _ (getRepetitionData_run w)). cbv zeta.
    apply saveRepetitionData_denied, Hdenied.
  - unfold clearAllRepetitionData, removeItem. rewrite Hdenied. reflexivity.
Qed.

Lemma writes_raise_when_denied_witness :
  localStorage denied_world = Denied /\
  (exists w', updateRepetition "q" true denied_world =
                Throw SecurityError w' /\
              localStorage w' = Denied) /\
  clearRepetitionForChapter ["q"] denied_world =
    Throw SecurityError denied_world /\
  clearAllRepetitionData denied_world = Throw SecurityError denied_world.
Proof.
  split; [reflexivity|].
  apply (writes_raise_when_denied denied_world "q" true ["q"]).
  reflexivity.
Defined.

(** ** Resetting progress *)

(** X5. On a storage that can be written, [clearAllRepetitionData] removes
    the key of the module and nothing else; afterwards the store reads as
    empty and every question reads as its default record. *)
Theorem clearAllRepetitionData_forgets (w : World)
    (items : gmap string document) :
  localStorage w = Items items ->
  exists w',
    clearAllRepetitionData w = Return tt w' /\
    getItem STORAGE_KEY w' = Return None w' /\
    (forall key, key <> STORAGE_KEY ->
                 getItem key w' = Return (items !! key) w') /\
    getRepetitionData w' = Return ∅ w' /\
    (forall id, getQuestionData id w' =
                Return (default_record id (now_of w')) (tick w')).
Proof.
  intros Hitems.
  exists (with_storage (Items (delete STORAGE_KEY items)) w).
  assert (Hempty : persisted (with_storage (Items (delete STORAGE_KEY items)) w)
                   = ∅).
  { unfold persisted, with_storage. simpl. rewrite lookup_delete_eq.
    reflexivity. }
  split; [|split; [|split; [|split]]].
  - unfold clearAllRepetitionData, removeItem. rewrite Hitems. reflexivity.
  - unfold getItem, with_storage. simpl. rewrite lookup_delete_eq.
    reflexivity.
  - intros key Hkey. unfold getItem, with_storage. simpl.
    rewrite lookup_delete_ne by congruence. reflexivity.
  - rewrite getRepetitionData_run, Hempty. reflexivity.
  - intros id. apply getQuestionData_unseen. rewrite Hempty.
    apply lookup_empty.
Qed.

Lemma clearAllRepetitionData_forgets_witness :
  localStorage (world_of review_pool) =
    Items {[ STORAGE_KEY := Stringified review_pool ]} /\
  exists w',
    clearAllRepetitionData (world_of review_pool) = Return tt w' /\
    getRepetitionData w' = Return ∅ w' /\
    getQuestionData "overdue" w' =
      Return (default_record "overdue" (now_of w')) (tick w').
Proof.
  split; [reflexivity|].
  destruct (clearAllRepetitionData_forgets (world_of review_pool)
              {[ STORAGE_KEY := Stringified review_pool ]} eq_refl)
    as (w' & Hrun & _ & _ & Hload & Hdefault).
  exists w'. split; [exact Hrun|]. split; [exact Hload|]. apply Hdefault.
Defined.

(** X6. On a storage that can be written and that holds, under the key of
    the module, no document, a document that does not parse or the
    serialisation of a mapping, [clearRepetitionForChapter] leaves the
    serialisation of a mapping under that key, also for an empty list of
    ids, and it leaves the other keys alone; for an empty list the mapping
    that the store reads is the one it read before. *)
Theorem clearRepetitionForChapter_leaves_document (w : World)
    (items : gmap string document) (ids : list string) :
  localStorage w = Items items ->
  (exists w',
      clearRepetitionForChapter ids w = Return tt w' /\
      getItem STORAGE_KEY w' = Return (Some (Stringified (persisted w'))) w' /\
      degraded w' = false /\
      (forall key, key <> STORAGE_KEY ->
                   getItem key w' = Return (items !! key) w')) /\
  (exists w0,
      clearRepetitionForChapter [] w = Return tt w0 /\
      persisted w0 = persisted w).
Proof.
  intros Hitems. split.
  - rewrite (clearRepetitionForChapter_run _ _ _ Hitems).
    eexists. split; [reflexivity|].
    split; [|split].
    + rewrite persisted_saved. unfold getItem, saved, with_storage. simpl.
      rewrite lookup_insert_eq. reflexivity.
    + apply degraded_saved.
    + intros key Hkey. apply getItem_saved, Hkey.
  - rewrite (clearRepetitionForChapter_run _ _ _ Hitems).
    eexists. split; [reflexivity|]. apply persisted_saved.
Qed.

Lemma clearRepetitionForChapter_leaves_document_witness :
  localStorage corrupt_world =
    Items {[ STORAGE_KEY := Malformed "{oops" ]} /\
  exists w',
    clearRepetitionForChapter ["q"] corrupt_world = Return tt w' /\
    getItem STORAGE_KEY w' = Return (Some (Stringified (persisted w'))) w' /\
    degraded w' = false.
Proof.
  split; [reflexivity|].
  destruct (proj1 (clearRepetitionForChapter_leaves_document corrupt_world
                     {[ STORAGE_KEY := Malformed "{oops" ]} ["q"] eq_refl))
    as (w' & Hrun & Hdoc & Hok & _).
  exists w'. split; [exact Hrun|]. split; [exact Hdoc | exact Hok].
Defined.

Lemma foldl_delete_same_ids (ids ids' : list string)
    (data : gmap string RepetitionData) :
  (forall id, id ∈ ids <-> id ∈ ids') ->
  foldl (fun data id => delete id data) data ids =
  foldl (fun data id => delete id data) data ids'.
Proof.
  intros Hsame. apply map_eq. intros id.
  rewrite !foldl_delete_lookup.
  destruct (decide (id ∈ ids)) as [Hin|Hout];
    destruct (decide (id ∈ ids')) as [Hin'|Hout']; try reflexivity.
  - exfalso. apply Hout', Hsame, Hin.
  - exfalso. apply Hout, Hsame, Hin'.
Qed.

Lemma saved_saved data data' items w :
  saved data' (<[STORAGE_KEY := Stringified data]> items) (saved data items w)
  = saved data' items w.
Proof.
  unfold saved, with_storage. simpl. rewrite insert_insert_eq. reflexivity.
Qed.

(** X7. Chapter resets compose and depend only on the set of ids: on a
    storage that can be written, resetting [ids1] and then [ids2] leaves
    the world that resetting [ids1 ++ ids2] at once leaves; a list with the
    same members, in any order and with any repetitions, gives the same
    world; and a second reset of the same ids changes nothing. *)
Theorem clearRepetitionForChapter_composes (w : World)
    (items : gmap string document) (ids1 ids2 : list string) :
  localStorage w = Items items ->
  exists w1 w2,
    clearRepetitionForChapter ids1 w = Return tt w1 /\
    clearRepetitionForChapter ids2 w1 = Return tt w2 /\
    clearRepetitionForChapter (ids1 ++ ids2) w = Return tt w2 /\
    clearRepetitionForChapter ids1 w1 = Return tt w1 /\
    (forall ids', (forall id, id ∈ ids' <-> id ∈ ids1) ->
                  clearRepetitionForChapter ids' w = Return tt w1).
Proof.
  intros Hitems.
  set (remove := fun (data : gmap string RepetitionData) (id : string) =>
                   delete id data).
  set (data1 := foldl remove (persisted w) ids1).
  exists (saved data1 items w), (saved (foldl remove data1 ids2) items w).
  assert (Hitems1 : localStorage (saved data1 items w) =
                    Items (<[STORAGE_KEY := Stringified data1]> items))
    by reflexivity.
  split; [apply clearRepetitionForChapter_run, Hitems|].
  split; [|split; [|split]].
  - rewrite (clearRepetitionForChapter_run _ _ _ Hitems1).
    rewrite persisted_saved. fold remove. rewrite saved_saved. reflexivity.
  - rewrite (clearRepetitionForChapter_run _ _ _ Hitems).
    fold remove. rewrite foldl_app. reflexivity.
  - rewrite (clearRepetitionForChapter_run _ _ _ Hitems1).
    rewrite persisted_saved, saved_saved. fold remove.
    assert (Hfixed : foldl remove data1 ids1 = data1).
    { apply map_eq. intros id. unfold remove, data1.
      rewrite !foldl_delete_lookup.
      destruct (decide (id ∈ ids1)); reflexivity. }
    rewrite Hfixed. reflexivity.
  - intros ids' Hsame.
    rewrite (clearRepetitionForChapter_run _ _ _ Hitems).
    rewrite (foldl_delete_same_ids ids' ids1 _ Hsame). reflexivity.
Qed.

Lemma clearRepetitionForChapter_composes_witness :
  localStorage (world_of review_pool) =
    Items {[ STORAGE_KEY := Stringified review_pool ]} /\
  exists w1 w2,
    clearRepetitionForChapter ["missed"] (world_of review_pool) =
      Return tt w1 /\
    clearRepetitionForChapter ["hard"; "fresh"] w1 = Return tt w2 /\
    clearRepetitionForChapter ["missed"; "hard"; "fresh"]
      (world_of review_pool) = Return tt w2 /\
    clearRepetitionForChapter ["missed"; "missed"] (world_of review_pool) =
      Return tt w1.
Proof.
  split; [reflexivity|].
  destruct (clearRepetitionForChapter_composes (world_of review_pool)
              {[ STORAGE_KEY := Stringified review_pool ]}
              ["missed"] ["hard"; "fresh"] eq_refl)
    as (w1 & w2 & H1 & H2 & H12 & _ & Hsame).
  exists w1, w2. repeat (split; [assumption|]).
  apply Hsame. intros id. rewrite !elem_of_cons, elem_of_nil. tauto.
Defined.

(** ** Runs of answers *)

Lemma round_above (x : Q) : (x - (1 # 2) < Math.round x)%Q.
Proof.
  unfold Math.round.
  pose proof (Qlt_floor (x + (1 # 2))) as H.
  rewrite inject_Z_plus in H. change (inject_Z 1) with 1%Q in H. lra.
Qed.

Lemma of_nat_S (k : nat) : (of_nat (S k) == of_nat k + 1)%Q.
Proof.
  unfold of_nat. rewrite Nat2Z.inj_succ, <- Z.add_1_r, inject_Z_plus.
  reflexivity.
Qed.

Lemma of_nat_le (j k : nat) : j <= k -> (of_nat j <= of_nat k)%Q.
Proof. intros H. unfold of_nat. rewrite <- Zle_Qle. lia. Qed.

Lemma of_nat_le_inv (j k : nat) : (of_nat j <= of_nat k)%Q -> j <= k.
Proof. unfold of_nat. rewrite <- Zle_Qle. lia. Qed.

(** A run of answers on a storage that can be written is the transition
    iterated from the record the store gives, along the reads of the
    clock; the last record of the run is the one the store holds. *)
Lemma answerAll_run id answers :
  forall w items r w1,
    localStorage w = Items items ->
    getQuestionData id w = Return r w1 ->
    exists w',
      answerAll id answers w =
        Return (trajectory r answers (clock w) (reads w1)) w' /\
      (exists items', localStorage w' = Items items') /\
      (answers <> [] ->
       persisted w' !! id = last (trajectory r answers (clock w) (reads w1))).
Proof.
  induction answers as [|isCorrect answers IH]; intros w items r w1 Hitems Hget.
  - exists w. split; [reflexivity|]. split; [eauto|]. congruence.
  - destruct (getQuestionData_frame _ _ _ _ Hget) as (_ & Hclock & _).
    pose proof (updateRepetition_run _ isCorrect _ _ _ _ Hitems Hget) as Hrun.
    set (r' := answered r isCorrect (now_of w1)) in *.
    set (w2 := saved (<[id := r']> (persisted w)) items (tick w1)) in *.
    assert (Hstored : persisted w2 !! id = Some r')
      by (unfold w2; rewrite persisted_saved; apply lookup_insert_eq).
    destruct (IH w2 _ r' w2 (saved_writable _ _ _)
                (getQuestionData_stored _ _ _ Hstored))
      as (w' & Hrest & Hwritable & Hlast).
    assert (Hnow : now_of w1 = clock w (reads w1))
      by (unfold now_of; rewrite Hclock; reflexivity).
    assert (Htraj : trajectory r (isCorrect :: answers) (clock w) (reads w1) =
                    r' :: trajectory r' answers (clock w2) (reads w2)).
    { simpl. fold (now_of w1). rewrite <- Hnow. fold r'.
      unfold w2. simpl. rewrite Hclock. reflexivity. }
    exists w'. rewrite Htraj. split; [|split; [exact Hwritable|]].
    + simpl. rewrite (bind_Return _ _ _ _ _ Hrun).
      rewrite (bind_Return _ _ _ _ _ Hrest). reflexivity.
    + intros _. destruct answers as [|isCorrect' answers].
      * simpl in *. injection Hrest as <-. exact Hstored.
      * rewrite Hlast by discriminate. reflexivity.
Qed.

Lemma default_record_scheduled id now : scheduled (default_record id now).
Proof.
  constructor; simpl.
  - lra.
  - exists 0. reflexivity.
  - exists 1%Z. reflexivity.
  - intros _. reflexivity.
  - lra.
Qed.

Lemma next_interval_scheduled r :
  scheduled r ->
  (exists z : Z, (next_interval r == inject_Z z)%Q) /\
  ((repetitions r + 1 <= 1)%Q -> (next_interval r == 1)%Q) /\
  ((2 <= repetitions r + 1)%Q -> (6 <= next_interval r)%Q) /\
  (interval r <= next_interval r)%Q /\
  ((1 <= repetitions r)%Q -> (interval r < next_interval r)%Q).
Proof.
  intros [Hease [n Hn] [z Hz] Hyoung Hmature].
  assert (Hnonneg : (0 <= repetitions r)%Q).
  { rewrite Hn. apply (of_nat_le 0 n). lia. }
  unfold next_interval.
  destruct (Number.eqb (repetitions r) 0) eqn:H0.
  { apply NumberFacts.eqb_true in H0.
    assert (Hi : (interval r == 1)%Q) by (apply Hyoung; lra).
    split; [exists 1%Z; reflexivity|]. repeat split; intros; lra. }
  apply NumberFacts.eqb_false in H0.
  destruct (Number.eqb (repetitions r) 1) eqn:H1.
  { apply NumberFacts.eqb_true in H1.
    assert (Hi : (interval r == 1)%Q) by (apply Hyoung; lra).
    split; [exists 6%Z; reflexivity|]. repeat split; intros; lra. }
  apply NumberFacts.eqb_false in H1.
  assert (Htwo : (2 <= repetitions r)%Q).
  { rewrite Hn. rewrite Hn in H0, H1.
    destruct n as [|[|n]].
    - exfalso. apply H0. reflexivity.
    - exfalso. apply H1. reflexivity.
    - apply (of_nat_le 2). lia. }
  pose proof (Hmature Htwo) as Hsix.
  pose proof (round_above (interval r * easeFactor r)) as Habove.
  assert (Hprod : ((13 # 10) * interval r <= interval r * easeFactor r)%Q)
    by nra.
  split; [eexists; reflexivity|].
  repeat split; intros; lra.
Qed.

Lemma answered_scheduled r isCorrect now :
  scheduled r -> scheduled (answered r isCorrect now).
Proof.
  intros Hr. destruct (next_interval_scheduled r Hr)
    as (Hdays & Hyoung & Hmature & _).
  destruct Hr as [Hease [n Hn] _ _ _].
  destruct isCorrect; constructor; simpl;
    try apply NumberFacts.max_ge_l; try assumption.
  - exists (S n). rewrite of_nat_S, Hn. reflexivity.
  - exists 0. reflexivity.
  - exists 1%Z. reflexivity.
  - intros _. reflexivity.
  - lra.
Qed.

Lemma trajectory_scheduled answers :
  forall r clock n,
    scheduled r -> Forall scheduled (trajectory r answers clock n).
Proof.
  induction answers as [|isCorrect answers IH]; intros r clock n Hr; simpl.
  - constructor.
  - constructor; [|apply IH]; apply answered_scheduled, Hr.
Qed.

Lemma trajectory_streak answers :
  forall r clock n k r',
    (repetitions r == of_nat k)%Q ->
    last (trajectory r answers clock n) = Some r' ->
    (repetitions r' == of_nat (streak k answers))%Q.
Proof.
  induction answers as [|isCorrect answers IH]; intros r clock n k r' Hk Hlast;
    [discriminate|].
  assert (Hstep : (repetitions (answered r isCorrect (clock n)) ==
                   of_nat (if isCorrect then S k else 0))%Q).
  { destruct isCorrect; simpl; [rewrite of_nat_S, Hk|]; reflexivity. }
  destruct answers as [|isCorrect' answers].
  - simpl in Hlast. injection Hlast as <-. exact Hstep.
  - apply (IH _ clock (S n) _ _ Hstep). exact Hlast.
Qed.

Lemma trajectory_length answers :
  forall r clock n, length (trajectory r answers clock n) = length answers.
Proof.
  induction answers as [|isCorrect answers IH]; intros r clock n; simpl;
    [reflexivity | rewrite IH; reflexivity].
Qed.

(** X8. [repetitions] counts the consecutive correct answers: after a run
    of answers to a question whose record had [k] repetitions, on a
    storage that can be written, the last record returned has as many
    repetitions as there are correct answers at the end of the run, the
    [k] earlier ones included when the whole run is correct. *)
Theorem repetitions_count_the_streak (w : World)
    (items : gmap string document) (id : string) (answers : list bool)
    (r : RepetitionData) (w1 : World) (k : nat) :
  localStorage w = Items items ->
  getQuestionData id w = Return r w1 ->
  (repetitions r == of_nat k)%Q ->
  exists rs w',
    answerAll id answers w = Return rs w' /\
    length rs = length answers /\
    (forall r', last rs = Some r' ->
                (repetitions r' == of_nat (streak k answers))%Q).
Proof.
  intros Hitems Hget Hk.
  destruct (answerAll_run id answers w items r w1 Hitems Hget)
    as (w' & Hrun & _ & _).
  eexists _, w'. split; [exact Hrun|].
  split; [apply trajectory_length|].
  intros r' Hlast. exact (trajectory_streak _ _ _ _ _ _ Hk Hlast).
Qed.

Lemma repetitions_count_the_streak_witness :
  localStorage empty_world = Items ∅ /\
  getQuestionData "q" empty_world =
    Return (default_record "q" (now_of empty_world)) (tick empty_world) /\
  (repetitions (default_record "q" (now_of empty_world)) == of_nat 0)%Q /\
  exists rs w',
    answerAll "q" [true; false; true; true] empty_world = Return rs w' /\
    length rs = 4 /\
    (forall r', last rs = Some r' -> (repetitions r' == of_nat 2)%Q).
Proof.
  split; [reflexivity|]. split; [reflexivity|]. split; [reflexivity|].
  apply (repetitions_count_the_streak empty_world ∅ "q"
           [true; false; true; true]
           (default_record "q" (now_of empty_world)) (tick empty_world) 0);
    reflexivity.
Defined.

Lemma scheduled_interval_ge_1 r : scheduled r -> (1 <= interval r)%Q.
Proof.
  intros [_ [n Hn] _ Hyoung Hmature].
  destruct n as [|[|n]].
  - rewrite Hyoung; [lra|]. rewrite Hn. vm_compute. discriminate.
  - rewrite Hyoung; [lra|]. rewrite Hn. vm_compute. discriminate.
  - assert (H2 : (2 <= repetitions r)%Q)
      by (rewrite Hn; apply (of_nat_le 2); lia).
    specialize (Hmature H2). lra.
Qed.

(** X9. The scheduler keeps its records in shape: on a storage that can be
    written, a run of at most 266 answers to a question that has no record
    yet returns only records with an ease factor of at least 1.3, a
    natural number of repetitions, a whole interval that is 1 up to the
    first success and at least 6 from the second on, hence never below 1,
    and a last result set. (From the 267th success in a row on, binary64
    has no finite next review time left.) *)
Theorem runs_keep_records_scheduled (w : World)
    (items : gmap string document) (id : string) (answers : list bool) :
  localStorage w = Items items ->
  persisted w !! id = None ->
  length answers <= 266 ->
  exists rs w',
    answerAll id answers w = Return rs w' /\
    Forall scheduled rs /\
    Forall (fun r => (1 <= interval r)%Q) rs /\
    Forall (fun r => lastResult r <> None) rs.
Proof.
  intros Hitems Hfresh _.
  pose proof (getQuestionData_unseen _ _ Hfresh) as Hget.
  pose proof (default_record_scheduled id (now_of w)) as Hr.
  destruct (answerAll_run id answers w items _ _ Hitems Hget)
    as (w' & Hrun & _ & _).
  eexists _, w'. split; [exact Hrun|].
  split; [apply trajectory_scheduled, Hr|].
  split.
  { eapply Forall_impl; [apply trajectory_scheduled, Hr|].
    intros r0 Hr0. apply scheduled_interval_ge_1, Hr0. }
  clear. generalize (default_record id (now_of w)) (reads (tick w)).
  induction answers as [|isCorrect answers IH]; intros r0 n; simpl;
    constructor; [|apply IH].
  rewrite answered_lastResult. discriminate.
Qed.

Lemma runs_keep_records_scheduled_witness :
  localStorage empty_world = Items ∅ /\
  persisted empty_world !! "q" = None /\
  length [true; true; true; false; true] <= 266 /\
  exists rs w',
    answerAll "q" [true; true; true; false; true] empty_world =
      Return rs w' /\
    Forall scheduled rs /\
    Forall (fun r => (1 <= interval r)%Q) rs /\
    Forall (fun r => lastResult r <> None) rs.
Proof.
  split; [reflexivity|]. split; [reflexivity|]. split; [simpl; lia|].
  apply (runs_keep_records_scheduled empty_world ∅ "q"
           [true; true; true; false; true]).
  - reflexivity.
  - reflexivity.
  - simpl. lia.
Defined.

(** X10. Success lengthens the interval: on a storage that can be written,
    a correct answer on a record of the shape [scheduled] whose interval
    times its ease factor is at most [max_days] returns a record of that
    shape whose interval is at least the interval before, and strictly
    longer as soon as the record had one repetition. *)
Theorem correct_answers_lengthen (w : World) (items : gmap string document)
    (id : string) (r : RepetitionData) (w1 : World) :
  localStorage w = Items items ->
  getQuestionData id w = Return r w1 ->
  scheduled r ->
  (interval r * easeFactor r <= max_days)%Q ->
  exists r' w',
    updateRepetition id true w = Return r' w' /\
    scheduled r' /\
    (interval r <= interval r')%Q /\
    ((1 <= repetitions r)%Q -> (interval r < interval r')%Q).
Proof.
  intros Hitems Hget Hr _.
  rewrite (updateRepetition_run _ _ _ _ _ _ Hitems Hget).
  eexists _, _. split; [reflexivity|].
  split; [apply answered_scheduled, Hr|].
  destruct (next_interval_scheduled r Hr) as (_ & _ & _ & Hle & Hlt).
  split; [exact Hle | exact Hlt].
Qed.

Lemma two_successes_scheduled : scheduled two_successes.
Proof.
  constructor; simpl.
  - vm_compute. discriminate.
  - exists 2. reflexivity.
  - exists 6%Z. reflexivity.
  - intros H. vm_compute in H. exfalso. apply H. reflexivity.
  - intros _. vm_compute. discriminate.
Defined.

Lemma correct_answers_lengthen_witness :
  localStorage (world_of {[ "q" := two_successes ]}) =
    Items {[ STORAGE_KEY := Stringified {[ "q" := two_successes ]} ]} /\
  getQuestionData "q" (world_of {[ "q" := two_successes ]}) =
    Return two_successes (world_of {[ "q" := two_successes ]}) /\
  scheduled two_successes /\
  (interval two_successes * easeFactor two_successes <= max_days)%Q /\
  exists r' w',
    updateRepetition "q" true (world_of {[ "q" := two_successes ]}) =
      Return r' w' /\
    scheduled r' /\
    (interval two_successes <= interval r')%Q /\
    ((1 <= repetitions two_successes)%Q ->
     (interval two_successes < interval r')%Q).
Proof.
  assert (Hfinite : (interval two_successes * easeFactor two_successes
                     <= max_days)%Q) by (vm_compute; discriminate).
  split; [reflexivity|]. split; [reflexivity|].
  split; [exact two_successes_scheduled|]. split; [exact Hfinite|].
  apply (correct_answers_lengthen (world_of {[ "q" := two_successes ]})
           {[ STORAGE_KEY := Stringified {[ "q" := two_successes ]} ]}
           "q" two_successes (world_of {[ "q" := two_successes ]}));
    [reflexivity | reflexivity | exact two_successes_scheduled
     | exact Hfinite].
Defined.

(** ** The queries *)

Lemma isDue_run now id w :
  exists w',
    isDue now id w = Return (due_at (persisted w) now id) w' /\
    localStorage w' = localStorage w /\
    persisted w' = persisted w /\
    clock w' = clock w.
Proof.
  unfold isDue, due_at.
  destruct (persisted w !! id) as [r|] eqn:Hlookup.
  - exists w.
    rewrite (bind_Return _ _ _ _ _ (getQuestionData_stored _ _ _ Hlookup)).
    destruct (lastResult r) as [[|]|]; repeat split.
  - exists (tick w).
    rewrite (bind_Return _ _ _ _ _ (getQuestionData_unseen _ _ Hlookup)).
    repeat split.
Qed.

Lemma filterM_isDue_run {T} (id : T -> string) now questions :
  forall w,
    exists w',
      filterM (fun q => isDue now (id q)) questions w =
        Return (List.filter (fun q => due_at (persisted w) now (id q))
                  questions) w' /\
      localStorage w' = localStorage w /\
      persisted w' = persisted w /\
      clock w' = clock w.
Proof.
  induction questions as [|q questions IH]; intros w.
  - exists w. repeat split.
  - destruct (isDue_run now (id q) w) as (w1 & Hdue & Hls1 & Hp1 & Hc1).
    destruct (IH w1) as (w' & Hrest & Hls & Hp & Hc).
    exists w'. split; [|repeat split; congruence].
    simpl. rewrite (bind_Return _ _ _ _ _ Hdue).
    rewrite (bind_Return _ _ _ _ _ Hrest). rewrite Hp1.
    destruct (due_at (persisted w) now (id q)); reflexivity.
Qed.

(** X11. [getQuestionsForReview] returns, in the order of its argument,
    exactly the questions that the store holds no record for, or a record
    with no last result, an incorrect last result or a next review that is
    not after the clock value read on entry; [getReviewCount] returns the
    number of such ids; neither raises nor writes, whether the storage is
    unreadable or holds, under the key of the module, no document, a
    document that does not parse or the serialisation of a mapping. *)
Theorem due_queries_filter (w : World) :
  (forall (T : Type) (id : T -> string) (questions : list T),
      exists w',
        getQuestionsForReview id questions w =
          Return (List.filter
                    (fun q => due_at (persisted w) (now_of w) (id q))
                    questions) w' /\
        localStorage w' = localStorage w) /\
  (forall questionIds : list string,
      exists w',
        getReviewCount questionIds w =
          Return (length (List.filter (due_at (persisted w) (now_of w))
                            questionIds)) w' /\
        localStorage w' = localStorage w).
Proof.
  split.
  - intros T id questions.
    destruct (filterM_isDue_run id (now_of w) questions (tick w))
      as (w' & Hrun & Hls & _ & _).
    exists w'. split; [|exact Hls].
    unfold getQuestionsForReview.
    rewrite (bind_Return _ _ _ _ _ (Date_now_run w)). exact Hrun.
  - intros questionIds.
    destruct (filterM_isDue_run (fun id => id) (now_of w) questionIds (tick w))
      as (w' & Hrun & Hls & _ & _).
    exists w'. split; [|exact Hls].
    unfold getReviewCount.
    rewrite (bind_Return _ _ _ _ _ (Date_now_run w)).
    rewrite (bind_Return _ _ _ _ _ Hrun). reflexivity.
Qed.

Lemma getRepetitionStats_run ids w :
  getRepetitionStats ids w =
  Return (foldl (tally (persisted w) (now_of w)) (mkStats 0 0 0 0) ids)
    (tick w).
Proof.
  unfold getRepetitionStats.
  rewrite (bind_Return _ _ _ _ _ (getRepetitionData_run w)). cbv zeta.
  rewrite (bind_Return _ _ _ _ _ (Date_now_run w)). reflexivity.
Qed.

Lemma due_at_bucket allData now id :
  match bucket_of (allData !! id) now with
  | NotStarted | NeedsReview => due_at allData now id = true
  | Learning => due_at allData now id = false
  | Mastered => True
  end.
Proof.
  unfold bucket_of, due_at.
  destruct (allData !! id) as [r|]; [|reflexivity].
  destruct (lastResult r) as [[|]|]; try reflexivity.
  destruct (decide ((21 <= interval r)%Q /\ (3 <= repetitions r)%Q));
    [exact I|].
  destruct (decide ((nextReview r <= now)%Q)) as [Hdue|Hnot_due].
  - apply NumberFacts.leb_true, Hdue.
  - apply NumberFacts.leb_false, Qnot_le_lt, Hnot_due.
Qed.

Lemma due_count_between allData now ids :
  in_bucket NeedsReview allData now ids + in_bucket NotStarted allData now ids
  <= length (List.filter (due_at allData now) ids) /\
  length (List.filter (due_at allData now) ids)
  <= in_bucket NeedsReview allData now ids +
     in_bucket NotStarted allData now ids +
     in_bucket Mastered allData now ids.
Proof.
  induction ids as [|id ids [IHlow IHhigh]]; [split; reflexivity|].
  rewrite !in_bucket_cons. simpl List.filter.
  pose proof (due_at_bucket allData now id) as Hid.
  destruct (bucket_of (allData !! id) now);
    repeat case_decide; try congruence;
    try rewrite Hid; destruct (due_at allData now id); simpl; lia.
Qed.

(** X12. The due count and the statistics of the same ids, taken on the
    same state of the store at the same clock value, are related: every
    question counted as not started or as needing review is due, no
    question counted as learning is due, and a mastered question is due
    once its next review has come, so that
    needsReview + notStarted <= count <= needsReview + notStarted +
    mastered. *)
Theorem due_count_and_statistics (w : World) (ids : list string) :
  exists stats w1 count w2,
    getRepetitionStats ids w = Return stats w1 /\
    getReviewCount ids w = Return count w2 /\
    needsReview stats + notStarted stats <= count /\
    count <= needsReview stats + notStarted stats + mastered stats.
Proof.
  destruct (filterM_isDue_run (fun id => id) (now_of w) ids (tick w))
    as (w2 & Hrun & _ & _ & _).
  eexists _, _, _, w2.
  split; [apply getRepetitionStats_run|].
  split.
  - unfold getReviewCount.
    rewrite (bind_Return _ _ _ _ _ (Date_now_run w)).
    rewrite (bind_Return _ _ _ _ _ Hrun). reflexivity.
  - set (stats := foldl _ _ ids).
    assert (Hcount : forall b,
               count_in b stats = in_bucket b (persisted w) (now_of w) ids).
    { intros b. unfold stats. rewrite foldl_tally_count.
      destruct b; reflexivity. }
    pose proof (Hcount NeedsReview) as Hn. pose proof (Hcount NotStarted) as Hs.
    pose proof (Hcount Mastered) as Hm. simpl in Hn, Hs, Hm.
    rewrite Hn, Hs, Hm. change (persisted (tick w)) with (persisted w).
    apply due_count_between.
Qed.

Lemma filter_all {A} (f : A -> bool) (l : list A) :
  (forall x, f x = true) -> List.filter f l = l.
Proof.
  intros Hall. induction l as [|x l IH]; simpl; [reflexivity|].
  rewrite Hall, IH. reflexivity.
Qed.

Lemma foldl_tally_empty now ids :
  forall stats,
    foldl (tally ∅ now) stats ids =
    mkStats (mastered stats) (learning stats) (needsReview stats)
      (notStarted stats + length ids).
Proof.
  induction ids as [|id ids IH]; intros [m l n s]; simpl.
  - f_equal. lia.
  - rewrite IH. unfold tally. rewrite lookup_empty. simpl. f_equal. lia.
Qed.

(** X13. A storage that cannot be read, holds no document or holds one
    that does not parse reads as a store without any record: every
    question gets the default record and the score 50, every question is
    due, and the statistics count every id as not started. *)
Theorem degraded_storage_reads_as_new (w : World) :
  degraded w = true ->
  (forall id, getQuestionData id w =
              Return (default_record id (now_of w)) (tick w)) /\
  (forall id, exists w', getPriorityScore id w = Return 50%Q w') /\
  (forall (T : Type) (id : T -> string) (questions : list T),
      exists w', getQuestionsForReview id questions w = Return questions w') /\
  (forall ids, exists w', getReviewCount ids w = Return (length ids) w') /\
  (forall ids, getRepetitionStats ids w =
               Return (mkStats 0 0 0 (length ids)) (tick w)).
Proof.
  intros Hdegraded.
  pose proof (degraded_persisted _ Hdegraded) as Hempty.
  assert (Hget : forall id, getQuestionData id w =
                            Return (default_record id (now_of w)) (tick w))
    by (intros id; apply getQuestionData_unseen; rewrite Hempty;
        apply lookup_empty).
  assert (Hdue : forall now id, due_at (persisted w) now id = true)
    by (intros now id; unfold due_at; rewrite Hempty, lookup_empty;
        reflexivity).
  split; [exact Hget|]. split; [|split; [|split]].
  - intros id. destruct (getPriorityScore_run _ _ _ _ (Hget id)) as (w' & Hrun).
    exists w'. exact Hrun.
  - intros T id questions.
    destruct (filterM_isDue_run id (now_of w) questions (tick w))
      as (w' & Hrun & _).
    exists w'. unfold getQuestionsForReview.
    rewrite (bind_Return _ _ _ _ _ (Date_now_run w)), Hrun.
    rewrite filter_all by (intros q; apply Hdue). reflexivity.
  - intros ids.
    destruct (filterM_isDue_run (fun id => id) (now_of w) ids (tick w))
      as (w' & Hrun & _).
    exists w'. unfold getReviewCount.
    rewrite (bind_Return _ _ _ _ _ (Date_now_run w)).
    rewrite (bind_Return _ _ _ _ _ Hrun).
    rewrite filter_all by (intros id; apply Hdue). reflexivity.
  - intros ids. rewrite getRepetitionStats_run, Hempty, foldl_tally_empty.
    reflexivity.
Qed.

Lemma degraded_storage_reads_as_new_witness :
  degraded denied_world = true /\
  getQuestionData "q" denied_world =
    Return (default_record "q" (now_of denied_world)) (tick denied_world) /\
  (exists w', getPriorityScore "q" denied_world = Return 50%Q w') /\
  (exists w', getReviewCount ["a"; "b"] denied_world = Return 2 w') /\
  getRepetitionStats ["a"; "b"] denied_world =
    Return (mkStats 0 0 0 2) (tick denied_world).
Proof.
  split; [reflexivity|].
  destruct (degraded_storage_reads_as_new denied_world eq_refl)
    as (Hget & Hscore & _ & Hcount & Hstats).
  split; [apply Hget|]. split; [apply Hscore|].
  split; [apply (Hcount ["a"; "b"]) | apply (Hstats ["a"; "b"])].
Defined.

(** ** Answers and what the queries say next *)

Lemma tally_mastered allData now id :
  mastered (tally allData now (mkStats 0 0 0 0) id) = 1 ->
  exists r, allData !! id = Some r /\ (3 <= repetitions r)%Q.
Proof.
  unfold tally.
  destruct (allData !! id) as [r|]; [|discriminate].
  destruct (lastResult r) as [[|]|]; try discriminate.
  destruct (Number.geb (interval r) 21) eqn:Hi; simpl;
    [|destruct (Number.leb (nextReview r) now); discriminate].
  destruct (Number.geb (repetitions r) 3) eqn:Hr; simpl;
    [|destruct (Number.leb (nextReview r) now); discriminate].
  intros _. exists r. split; [reflexivity|].
  apply NumberFacts.geb_true, Hr.
Qed.

(** X14. Mastery takes three correct answers in a row: after a non-empty
    run of answers to a question whose record had a natural number [k] of
    repetitions, on a storage that can be written, the statistics count the
    question as mastered only if the run ends with at least three
    consecutive correct answers, the [k] earlier ones included when the
    whole run is correct. *)
Theorem mastered_needs_three_in_a_row (w : World)
    (items : gmap string document) (id : string) (answers : list bool)
    (r : RepetitionData) (w1 : World) (k : nat) :
  localStorage w = Items items ->
  getQuestionData id w = Return r w1 ->
  (repetitions r == of_nat k)%Q ->
  answers <> [] ->
  exists rs w' stats w'',
    answerAll id answers w = Return rs w' /\
    getRepetitionStats [id] w' = Return stats w'' /\
    (mastered stats = 1 -> 3 <= streak k answers).
Proof.
  intros Hitems Hget Hk Hnonempty.
  destruct (answerAll_run id answers w items r w1 Hitems Hget)
    as (w' & Hrun & _ & Hlast).
  eexists _, w', _, _. split; [exact Hrun|].
  split; [apply getRepetitionStats_run|].
  simpl. intros Hmastered.
  destruct (tally_mastered _ _ _ Hmastered) as (r' & Hstored & Hthree).
  rewrite (Hlast Hnonempty) in Hstored.
  pose proof (trajectory_streak _ _ _ _ _ _ Hk Hstored) as Hstreak.
  apply of_nat_le_inv. rewrite <- Hstreak. exact Hthree.
Qed.

Lemma mastered_needs_three_in_a_row_witness :
  localStorage (world_of {[ "q" := two_successes ]}) =
    Items {[ STORAGE_KEY := Stringified {[ "q" := two_successes ]} ]} /\
  getQuestionData "q" (world_of {[ "q" := two_successes ]}) =
    Return two_successes (world_of {[ "q" := two_successes ]}) /\
  (repetitions two_successes == of_nat 2)%Q /\
  [false; true; true] <> [] /\
  exists rs w' stats w'',
    answerAll "q" [false; true; true]
      (world_of {[ "q" := two_successes ]}) = Return rs w' /\
    getRepetitionStats ["q"] w' = Return stats w'' /\
    (mastered stats = 1 -> 3 <= 2).
Proof.
  split; [reflexivity|]. split; [reflexivity|]. split; [reflexivity|].
  split; [discriminate|].
  apply (mastered_needs_three_in_a_row
           (world_of {[ "q" := two_successes ]})
           {[ STORAGE_KEY := Stringified {[ "q" := two_successes ]} ]}
           "q" [false; true; true] two_successes
           (world_of {[ "q" := two_successes ]}) 2);
    [reflexivity | reflexivity | reflexivity | discriminate].
Defined.

(** X15. A miss brings the question back at once: on a storage that can be
    written, after an incorrect answer the question is due at every clock
    value, the due count of the question alone is 1, the statistics count
    it as needing review, and its score is 100 - easeFactor * 10 for the
    lowered ease factor, whatever the record was before. *)
Theorem missed_question_is_due (w : World) (items : gmap string document)
    (id : string) :
  localStorage w = Items items ->
  exists r' w',
    updateRepetition id false w = Return r' w' /\
    (forall now, isDue now id w' = Return true w') /\
    (exists w'', getReviewCount [id] w' = Return 1 w'') /\
    getRepetitionStats [id] w' = Return (mkStats 0 0 1 0) (tick w') /\
    getPriorityScore id w' = Return (100 - easeFactor r' * 10)%Q w'.
Proof.
  intros Hitems.
  destruct (getQuestionData_returns id w) as (r & w1 & Hget).
  rewrite (updateRepetition_run _ _ _ _ _ _ Hitems Hget).
  set (r' := answered r false (now_of w1)).
  set (w' := saved _ items (tick w1)).
  assert (Hstored : persisted w' !! id = Some r')
    by (unfold w'; rewrite persisted_saved; apply lookup_insert_eq).
  assert (Hdue : forall now, isDue now id w' = Return true w')
    by (intros now; rewrite (isDue_stored _ _ _ _ Hstored); reflexivity).
  exists r', w'. split; [reflexivity|].
  split; [exact Hdue|]. split; [|split].
  - destruct (filterM_isDue_run (fun id => id) (now_of w') [id] (tick w'))
      as (w'' & Hrun & _).
    exists w''. unfold getReviewCount.
    rewrite (bind_Return _ _ _ _ _ (Date_now_run w')).
    rewrite (bind_Return _ _ _ _ _ Hrun).
    change (persisted (tick w')) with (persisted w').
    simpl List.filter. unfold due_at. rewrite Hstored. reflexivity.
  - rewrite getRepetitionStats_run. simpl. unfold tally. rewrite Hstored.
    reflexivity.
  - unfold getPriorityScore.
    rewrite (bind_Return _ _ _ _ _ (getQuestionData_stored _ _ _ Hstored)).
    reflexivity.
Qed.

Lemma missed_question_is_due_witness :
  localStorage (world_of review_pool) =
    Items {[ STORAGE_KEY := Stringified review_pool ]} /\
  exists r' w',
    updateRepetition "resting" false (world_of review_pool) = Return r' w' /\
    (forall now, isDue now "resting" w' = Return true w') /\
    (exists w'', getReviewCount ["resting"] w' = Return 1 w'') /\
    getRepetitionStats ["resting"] w' = Return (mkStats 0 0 1 0) (tick w') /\
    getPriorityScore "resting" w' = Return (100 - easeFactor r' * 10)%Q w'.
Proof.
  split; [reflexivity|].
  apply (missed_question_is_due (world_of review_pool)
           {[ STORAGE_KEY := Stringified review_pool ]} "resting").
  reflexivity.
Defined.

(** ** Scores and the comparator of the sort *)

(** X16. The score of a question answered correctly and overdue grows by 5
    for each day overdue, from 30, and stays at 80 from ten days overdue
    on. *)
Theorem overdue_score_grows_then_saturates (w : World) (id : string)
    (r : RepetitionData) :
  persisted w !! id = Some r ->
  lastResult r = Some correct ->
  (nextReview r < now_of w)%Q ->
  exists score w',
    getPriorityScore id w = Return score w' /\
    ((now_of w - nextReview r <= 10 * 86400000)%Q ->
     (score == 30 + (now_of w - nextReview r) * 5 / 86400000)%Q) /\
    ((10 * 86400000 <= now_of w - nextReview r)%Q -> (score == 80)%Q).
Proof.
  intros Hstored Hcorrect Hlate.
  destruct (getPriorityScore_run _ _ _ _ (getQuestionData_stored _ _ _ Hstored))
    as (w' & Hrun).
  eexists _, w'. split; [exact Hrun|].
  rewrite (score_of_overdue _ _ Hcorrect Hlate).
  pose proof (days_overdue_scaled (now_of w) (nextReview r)) as Hd.
  set (d := ((now_of w - nextReview r) / 86400000)%Q) in *.
  assert (Hfield : ((now_of w - nextReview r) * 5 / 86400000 == d * 5)%Q)
    by (unfold d; field).
  unfold Math.min. split; intros Hcase.
  - rewrite Q.min_l by lra. rewrite Hfield. reflexivity.
  - rewrite Q.min_r by lra. reflexivity.
Qed.

Lemma overdue_score_grows_then_saturates_witness :
  persisted (world_of review_pool) !! "overdue" = Some overdue /\
  lastResult overdue = Some correct /\
  (nextReview overdue < now_of (world_of review_pool))%Q /\
  exists score w',
    getPriorityScore "overdue" (world_of review_pool) = Return score w' /\
    (score == 80)%Q.
Proof.
  assert (Hlate : (nextReview overdue < now_of (world_of review_pool))%Q)
    by (vm_compute; reflexivity).
  split; [reflexivity|]. split; [reflexivity|]. split; [exact Hlate|].
  destruct (overdue_score_grows_then_saturates (world_of review_pool)
              "overdue" overdue eq_refl eq_refl Hlate)
    as (score & w' & Hrun & _ & Hcap).
  exists score, w'. split; [exact Hrun|].
  apply Hcap. vm_compute. discriminate.
Defined.

Lemma getPriorityScore_at id w :
  exists w',
    getPriorityScore id w = Return (score_at (persisted w) (now_of w) id) w' /\
    (w' = w \/ w' = tick w).
Proof.
  unfold getPriorityScore, score_at.
  destruct (persisted w !! id) as [r|] eqn:Hlookup.
  - rewrite (bind_Return _ _ _ _ _ (getQuestionData_stored _ _ _ Hlookup)).
    unfold score_of. destruct (lastResult r) as [[|]|].
    + rewrite (bind_Return _ _ _ _ _ (Date_now_run w)). cbv zeta.
      change (24 * 60 * 60 * 1000)%Q with 86400000%Q.
      exists (tick w). split; [|right; reflexivity].
      destruct (Number.gtb _ 0); reflexivity.
    + exists w. split; [reflexivity | left; reflexivity].
    + exists w. split; [reflexivity | left; reflexivity].
  - rewrite (bind_Return _ _ _ _ _ (getQuestionData_unseen _ _ Hlookup)).
    exists (tick w). split; [reflexivity | right; reflexivity].
Qed.

(** X17. While the clock stands still between its two reads, the
    comparator that [sortByPriority] hands to [sort] returns the score of
    its second argument minus the score of its first, both taken on the
    mapping the store holds at the same clock value; it is negative, which
    sorts the first argument first, exactly when the first argument has the
    higher score; and it leaves the storage as it was. *)
Theorem comparator_orders_by_score {T} (id : T -> string) (a b : T)
    (w : World) :
  clock w (S (reads w)) = clock w (reads w) ->
  exists result w',
    sortByPriority_comparator id a b w = Return result w' /\
    result = (score_at (persisted w) (now_of w) (id b) -
              score_at (persisted w) (now_of w) (id a))%Q /\
    ((result < 0)%Q <->
     (score_at (persisted w) (now_of w) (id b) <
      score_at (persisted w) (now_of w) (id a))%Q) /\
    localStorage w' = localStorage w.
Proof.
  intros Hfrozen.
  destruct (getPriorityScore_at (id a) w) as (w1 & Ha & Hw1).
  destruct (getPriorityScore_at (id b) w1) as (w2 & Hb & Hw2).
  assert (Hsame : persisted w1 = persisted w /\ now_of w1 = now_of w /\
                  localStorage w1 = localStorage w).
  { destruct Hw1 as [->| ->]; [auto|].
    repeat split. unfold now_of. simpl. exact Hfrozen. }
  destruct Hsame as (Hp & Hn & Hls). rewrite Hp, Hn in Hb.
  eexists _, w2. split; [|split; [reflexivity|split]].
  - unfold sortByPriority_comparator.
    rewrite (bind_Return _ _ _ _ _ Ha). rewrite (bind_Return _ _ _ _ _ Hb).
    reflexivity.
  - split; intros H; lra.
  - destruct Hw2 as [->| ->]; exact Hls.
Qed.

Lemma comparator_orders_by_score_witness :
  frozen 1 = frozen 0 /\
  exists result w',
    sortByPriority_comparator (fun id : string => id) "hard" "overdue"
      (frozen_world review_pool) = Return result w' /\
    (result < 0)%Q.
Proof.
  split; [reflexivity|].
  destruct (comparator_orders_by_score (fun id : string => id)
              "hard" "overdue" (frozen_world review_pool) eq_refl)
    as (result & w' & Hrun & -> & _ & _).
  eexists _, w'. split; [exact Hrun|].
  vm_compute. reflexivity.
Defined.

(** X18. When the clock advances between its two reads the comparator is
    not a consistent one: compared with itself, a question answered
    correctly, overdue, and less than ten days overdue at the second read,
    gets a positive result, 5 per day of clock advance, where a consistent
    comparator returns 0. *)
Theorem comparator_drifts_with_the_clock {T} (id : T -> string) (a : T)
    (w : World) (r : RepetitionData) :
  persisted w !! id a = Some r ->
  lastResult r = Some correct ->
  (nextReview r < clock w (reads w))%Q ->
  (clock w (reads w) < clock w (S (reads w)))%Q ->
  (clock w (S (reads w)) - nextReview r <= 10 * 86400000)%Q ->
  exists result w',
    sortByPriority_comparator id a a w = Return result w' /\
    (result ==
     (clock w (S (reads w)) - clock w (reads w)) * 5 / 86400000)%Q /\
    (0 < result)%Q.
Proof.
  intros Hstored Hcorrect Hlate Hadvance Hrecent.
  destruct (getPriorityScore_at (id a) w) as (w1 & Ha & Hw1).
  assert (Htick : w1 = tick w).
  { destruct Hw1 as [->|]; [|assumption]. exfalso.
    unfold getPriorityScore in Ha.
    rewrite (bind_Return _ _ _ _ _ (getQuestionData_stored _ _ _ Hstored))
      in Ha.
    rewrite Hcorrect in Ha.
    rewrite (bind_Return _ _ _ _ _ (Date_now_run w)) in Ha. cbv zeta in Ha.
    destruct (Number.gtb _ 0); injection Ha as _ Hreads;
      apply (f_equal reads) in Hreads; simpl in Hreads; lia. }
  subst w1.
  destruct (getPriorityScore_at (id a) (tick w)) as (w2 & Hb & _).
  eexists _, w2. split.
  { unfold sortByPriority_comparator.
    rewrite (bind_Return _ _ _ _ _ Ha). rewrite (bind_Return _ _ _ _ _ Hb).
    reflexivity. }
  change (persisted (tick w)) with (persisted w).
  unfold score_at. rewrite Hstored.
  change (now_of (tick w)) with (clock w (S (reads w))).
  change (now_of w) with (clock w (reads w)).
  set (t1 := clock w (reads w)) in *. set (t2 := clock w (S (reads w))) in *.
  rewrite (score_of_overdue r t1 Hcorrect Hlate).
  rewrite (score_of_overdue r t2 Hcorrect) by lra.
  pose proof (days_overdue_scaled t1 (nextReview r)) as Hd1.
  pose proof (days_overdue_scaled t2 (nextReview r)) as Hd2.
  set (d1 := ((t1 - nextReview r) / 86400000)%Q) in *.
  set (d2 := ((t2 - nextReview r) / 86400000)%Q) in *.
  assert (Hfield : ((t2 - t1) * 5 / 86400000 == (d2 - d1) * 5)%Q)
    by (unfold d1, d2; field).
  unfold Math.min.
  rewrite (Q.min_l (d1 * 5)), (Q.min_l (d2 * 5)) by lra.
  rewrite Hfield. split; [ring | lra].
Qed.

Lemma comparator_drifts_with_the_clock_witness :
  persisted (world_of {[ "late" := a_day_late ]}) !! "late" =
    Some a_day_late /\
  lastResult a_day_late = Some correct /\
  (nextReview a_day_late < ticking 0)%Q /\
  (ticking 0 < ticking 1)%Q /\
  (ticking 1 - nextReview a_day_late <= 10 * 86400000)%Q /\
  exists result w',
    sortByPriority_comparator (fun id : string => id) "late" "late"
      (world_of {[ "late" := a_day_late ]}) = Return result w' /\
    (0 < result)%Q.
Proof.
  assert (H1 : persisted (world_of {[ "late" := a_day_late ]}) !! "late" =
               Some a_day_late) by reflexivity.
  assert (H2 : (nextReview a_day_late < ticking 0)%Q)
    by (vm_compute; reflexivity).
  assert (H3 : (ticking 0 < ticking 1)%Q) by (vm_compute; reflexivity).
  assert (H4 : (ticking 1 - nextReview a_day_late <= 10 * 86400000)%Q)
    by (vm_compute; discriminate).
  repeat (split; [first [assumption | reflexivity]|]).
  destruct (comparator_drifts_with_the_clock (fun id : string => id) "late"
              (world_of {[ "late" := a_day_late ]}) a_day_late
              H1 eq_refl H2 H3 H4)
    as (result & w' & Hrun & _ & Hpos).
  exists result, w'. split; [exact Hrun | exact Hpos].
Defined.

(** ** More on answers, keys and statistics *)

(** X19. A correct answer schedules the return of the question: on a
    storage that can be written, after a correct answer that gives an
    interval of at most [max_days], so that the next review time is saved
    as a finite number, the question is due at a clock value exactly when
    that value has reached the clock value read for the update plus the
    new interval in days. *)
Theorem correct_answer_schedules_return (w : World)
    (items : gmap string document) (id : string) (r : RepetitionData)
    (w1 : World) :
  localStorage w = Items items ->
  getQuestionData id w = Return r w1 ->
  (next_interval r <= max_days)%Q ->
  exists r' w',
    updateRepetition id true w = Return r' w' /\
    interval r' = next_interval r /\
    forall now, exists due,
      isDue now id w' = Return due w' /\
      (due = true <-> (now_of w1 + interval r' * 86400000 <= now)%Q).
Proof.
  intros Hitems Hget _.
  rewrite (updateRepetition_run _ _ _ _ _ _ Hitems Hget).
  set (r' := answered r true (now_of w1)). set (w' := saved _ items (tick w1)).
  assert (Hstored : persisted w' !! id = Some r')
    by (unfold w'; rewrite persisted_saved; apply lookup_insert_eq).
  exists r', w'. split; [reflexivity|]. split; [reflexivity|].
  intros now. eexists. split; [apply (isDue_stored _ _ _ _ Hstored)|].
  simpl. rewrite NumberFacts.leb_true.
  pose proof (answered_nextReview r true (now_of w1)) as Hnext.
  fold r' in Hnext. simpl in Hnext. rewrite Hnext. reflexivity.
Qed.

Lemma correct_answer_schedules_return_witness :
  localStorage (world_of {[ "q" := two_successes ]}) =
    Items {[ STORAGE_KEY := Stringified {[ "q" := two_successes ]} ]} /\
  getQuestionData "q" (world_of {[ "q" := two_successes ]}) =
    Return two_successes (world_of {[ "q" := two_successes ]}) /\
  (next_interval two_successes <= max_days)%Q /\
  exists r' w',
    updateRepetition "q" true (world_of {[ "q" := two_successes ]}) =
      Return r' w' /\
    interval r' = next_interval two_successes /\
    forall now, exists due,
      isDue now "q" w' = Return due w' /\
      (due = true <->
       (now_of (world_of {[ "q" := two_successes ]}) +
        interval r' * 86400000 <= now)%Q).
Proof.
  assert (Hfinite : (next_interval two_successes <= max_days)%Q)
    by (vm_compute; discriminate).
  split; [reflexivity|]. split; [reflexivity|]. split; [exact Hfinite|].
  apply (correct_answer_schedules_return
           (world_of {[ "q" := two_successes ]})
           {[ STORAGE_KEY := Stringified {[ "q" := two_successes ]} ]}
           "q" two_successes (world_of {[ "q" := two_successes ]}));
    [reflexivity | reflexivity | exact Hfinite].
Defined.

Lemma answered_questionId r isCorrect now :
  questionId (answered r isCorrect now) = questionId r.
Proof. destruct isCorrect; reflexivity. Qed.

(** X20. The records stay under their own ids: on a storage that can be
    written and whose mapping holds every record under the [questionId] of
    the record, an update returns a record that carries the id it was
    asked for, and both an update and a chapter reset leave a mapping that
    again holds every record under its own [questionId]. *)
Theorem store_stays_keyed (w : World) (items : gmap string document) :
  localStorage w = Items items ->
  keyed (persisted w) ->
  (forall id isCorrect, exists r' w',
      updateRepetition id isCorrect w = Return r' w' /\
      questionId r' = id /\
      keyed (persisted w')) /\
  (forall ids, exists w',
      clearRepetitionForChapter ids w = Return tt w' /\
      keyed (persisted w')).
Proof.
  intros Hitems Hkeyed. split.
  - intros id isCorrect.
    destruct (getQuestionData_returns id w) as (r & w1 & Hget).
    assert (Hid : questionId r = id).
    { rewrite getQuestionData_run in Hget.
      destruct (persisted w !! id) as [r0|] eqn:Hlookup;
        injection Hget as <- _; [apply Hkeyed, Hlookup | reflexivity]. }
    rewrite (updateRepetition_run _ _ _ _ _ _ Hitems Hget).
    eexists _, _. split; [reflexivity|].
    split; [rewrite answered_questionId; exact Hid|].
    rewrite persisted_saved. intros id' r'.
    destruct (decide (id' = id)) as [->|Hne].
    + rewrite lookup_insert_eq. intros [= <-].
      rewrite answered_questionId. exact Hid.
    + rewrite lookup_insert_ne by congruence. apply Hkeyed.
  - intros ids. rewrite (clearRepetitionForChapter_run _ _ _ Hitems).
    eexists. split; [reflexivity|].
    rewrite persisted_saved. intros id r. rewrite foldl_delete_lookup.
    destruct (decide (id ∈ ids)); [discriminate | apply Hkeyed].
Qed.

Lemma review_pool_keyed : keyed (persisted (world_of review_pool)).
Proof.
  intros id r. change (persisted (world_of review_pool)) with review_pool.
  unfold review_pool.
  repeat (rewrite lookup_insert;
          destruct (decide (_ = id)) as [<-|_]; [intros [= <-]; reflexivity|]).
  rewrite lookup_singleton.
  destruct (decide (_ = id)) as [<-|_]; [intros [= <-]; reflexivity|].
  discriminate.
Defined.

Lemma store_stays_keyed_witness :
  localStorage (world_of review_pool) =
    Items {[ STORAGE_KEY := Stringified review_pool ]} /\
  keyed (persisted (world_of review_pool)) /\
  (exists r' w',
      updateRepetition "fresh" true (world_of review_pool) = Return r' w' /\
      questionId r' = "fresh" /\
      keyed (persisted w')) /\
  (exists w',
      clearRepetitionForChapter ["hard"] (world_of review_pool) =
        Return tt w' /\
      keyed (persisted w')).
Proof.
  split; [reflexivity|]. split; [exact review_pool_keyed|].
  destruct (store_stays_keyed (world_of review_pool)
              {[ STORAGE_KEY := Stringified review_pool ]}
              eq_refl review_pool_keyed) as (Hupdate & Hclear).
  split; [apply Hupdate | apply Hclear].
Defined.

Lemma stats_ext (s s' : Stats) :
  (forall b, count_in b s = count_in b s') -> s = s'.
Proof.
  intros H. destruct s as [m l n o], s' as [m' l' n' o'].
  pose proof (H Mastered). pose proof (H Learning).
  pose proof (H NeedsReview). pose proof (H NotStarted).
  simpl in *. congruence.
Qed.

Lemma in_bucket_app b allData now ids1 ids2 :
  in_bucket b allData now (ids1 ++ ids2) =
  in_bucket b allData now ids1 + in_bucket b allData now ids2.
Proof. unfold in_bucket. rewrite filter_app, length_app. reflexivity. Qed.

Lemma in_bucket_Permutation b allData now ids ids' :
  ids ≡ₚ ids' -> in_bucket b allData now ids = in_bucket b allData now ids'.
Proof. intros H. unfold in_bucket. rewrite H. reflexivity. Qed.

Lemma stats_counts allData now ids b :
  count_in b (foldl (tally allData now) (mkStats 0 0 0 0) ids) =
  in_bucket b allData now ids.
Proof. rewrite foldl_tally_count. destruct b; reflexivity. Qed.

(** X21. The statistics count occurrences and do not depend on the order
    of the ids: on the same state of the store and at the same clock value,
    each counter for [ids1 ++ ids2] is the sum of the counters for [ids1]
    and for [ids2], so that an id listed twice is counted twice, and any
    rearrangement of the list gives the same counters. *)
Theorem getRepetitionStats_additive (w : World) (ids1 ids2 : list string) :
  exists s1 s2 s,
    getRepetitionStats ids1 w = Return s1 (tick w) /\
    getRepetitionStats ids2 w = Return s2 (tick w) /\
    getRepetitionStats (ids1 ++ ids2) w = Return s (tick w) /\
    (forall b, count_in b s = count_in b s1 + count_in b s2) /\
    (forall ids', ids' ≡ₚ ids1 ->
                  getRepetitionStats ids' w = Return s1 (tick w)).
Proof.
  eexists _, _, _.
  split; [apply getRepetitionStats_run|].
  split; [apply getRepetitionStats_run|].
  split; [apply getRepetitionStats_run|].
  split.
  - intros b. rewrite !stats_counts. apply in_bucket_app.
  - intros ids' Hperm. rewrite getRepetitionStats_run. f_equal.
    apply stats_ext. intros b. rewrite !stats_counts.
    apply in_bucket_Permutation, Hperm.
Qed.
